(** * vectorbt.utils: magic_decorators.py and image_.py

    A shallow embedding of the class decorators that install operator
    ("magic") methods on a class from a catalog, and of the two image
    stacking helpers.  Python code that can raise is written in an exception
    monad; code that mutates a class object threads the interpreter state. *)

From Stdlib Require Import ZArith.
From stdpp Require Import base numbers strings gmap list functions.

Open Scope string_scope.

(** ** Python exceptions and results *)

Inductive exn : Type :=
  | KeyError (key : string)
  | TypeError (msg : string)
  | AttributeError (msg : string)
  | ValueError (msg : string)
  | OtherError (msg : string).

Inductive exc (A : Type) : Type :=
  | Ok (a : A)
  | Raise (e : exn).
Arguments Ok {A} a.
Arguments Raise {A} e.

Definition raises {A} (r : exc A) : Prop := ∃ e, r = Raise e.

Module Magic.

Section Decorators.

(** [Obj] stands for the array-like data objects (NumPy arrays, pandas
    objects, wrapped domain values).  A Python callable over them takes its
    positional arguments as a list and returns or raises. *)
Context (Obj : Type).

Definition pyfunc : Type := list Obj → exc Obj.

(** What a settings dictionary can hold and what a translation function is
    handed: a data object or a combination function. *)
Inductive value : Type :=
  | VObj (o : Obj)
  | VFunc (f : pyfunc).

(** [BinaryTranslateFuncT] / [UnaryTranslateFuncT]: a caller-supplied
    callable.  Python checks the number of arguments only when the call is
    made, so a callable is a function of its whole argument list. *)
Definition TranslateFuncT : Type := list value → exc value.

(** The part of NumPy the two built-in catalogs refer to. *)
Class Numpy : Type := {
  np_equal : pyfunc;
  np_not_equal : pyfunc;
  np_less : pyfunc;
  np_greater : pyfunc;
  np_less_equal : pyfunc;
  np_greater_equal : pyfunc;
  np_add : pyfunc;
  np_subtract : pyfunc;
  np_multiply : pyfunc;
  np_power : pyfunc;
  np_mod : pyfunc;
  np_floor_divide : pyfunc;
  np_true_divide : pyfunc;
  np_bitwise_and : pyfunc;
  np_bitwise_or : pyfunc;
  np_bitwise_xor : pyfunc;
  np_negative : pyfunc;
  np_positive : pyfunc;
  np_absolute : pyfunc;
  np_invert : pyfunc
}.

Context {NP : Numpy}.

(** [lambda x, y: f(y, x)]: a two-parameter function; any other number of
    arguments is a [TypeError] at the call. *)
Definition lambda_swapped (f : pyfunc) : pyfunc :=
  λ args,
    match args with
    | [x; y] => f [y; x]
    | _ => Raise (TypeError "<lambda>() takes 2 positional arguments")
    end.

(** [dict(func=...)] *)
Local Abbreviation settings_t := (gmap string value).

Definition dict_func (f : pyfunc) : settings_t := {[ "func" := VFunc f ]}.

(** [settings['func']] *)
Definition dict_getitem (d : settings_t) (key : string) : exc value :=
  match d !! key with
  | Some v => Ok v
  | None => Raise (KeyError key)
  end.

(** Modelled from the spec: the [Config] class of vectorbt/utils/config.py,
    which is not among the sources: an ordered mapping from operator name
    to settings, with the [readonly] and [as_attrs] flags it was built
    with.  "Invariant: catalog is read-only after construction; attempting
    mutation fails." *)
Record Config : Type := {
  config_items : list (string * settings_t);
  readonly : bool;
  as_attrs : bool
}.

(** A mapping has each key once. *)
Definition config_wf (c : Config) : Prop := NoDup (config_items c).*1.

Fixpoint assoc_get (key : string) (l : list (string * settings_t))
    : option settings_t :=
  match l with
  | [] => None
  | (k, v) :: l' => if decide (k = key) then Some v else assoc_get key l'
  end.

(** [d[key] = v] on an insertion-ordered mapping: an existing key keeps its
    place, a new key goes last. *)
Fixpoint assoc_set (key : string) (v : settings_t)
    (l : list (string * settings_t)) : list (string * settings_t) :=
  match l with
  | [] => [(key, v)]
  | (k, v') :: l' =>
      if decide (k = key) then (key, v) :: l' else (k, v') :: assoc_set key v l'
  end.

Definition assoc_del (key : string) (l : list (string * settings_t))
    : list (string * settings_t) :=
  filter (λ kv, kv.1 ≠ key) l.

Definition config_get (c : Config) (key : string) : option settings_t :=
  assoc_get key (config_items c).

Inductive mutation : Type :=
  | SetItem (key : string) (v : settings_t)
  | DelItem (key : string)
  | Pop (key : string)
  | Update (other : list (string * settings_t))
  | Clear.

(** Modelled from the spec: mutating a [Config].  A read-only config
    refuses every mutation; otherwise the mapping is updated as a [dict]
    is. *)
Definition config_mutate (c : Config) (m : mutation) : exc Config :=
  if readonly c then Raise (TypeError "Config is read-only")
  else
    let with_items l :=
      {| config_items := l; readonly := readonly c; as_attrs := as_attrs c |} in
    match m with
    | SetItem k v => Ok (with_items (assoc_set k v (config_items c)))
    | DelItem k | Pop k =>
        match config_get c k with
        | Some _ => Ok (with_items (assoc_del k (config_items c)))
        | None => Raise (KeyError k)
        end
    | Update other =>
        Ok (with_items (foldl (λ l kv, assoc_set kv.1 kv.2 l) (config_items c) other))
    | Clear => Ok (with_items [])
    end.

(** [binary_magic_config] *)
Definition binary_magic_config : Config := {|
  config_items := [
    ("__eq__", dict_func np_equal);
    ("__ne__", dict_func np_not_equal);
    ("__lt__", dict_func np_less);
    ("__gt__", dict_func np_greater);
    ("__le__", dict_func np_less_equal);
    ("__ge__", dict_func np_greater_equal);
    (* arithmetic ops *)
    ("__add__", dict_func np_add);
    ("__sub__", dict_func np_subtract);
    ("__mul__", dict_func np_multiply);
    ("__pow__", dict_func np_power);
    ("__mod__", dict_func np_mod);
    ("__floordiv__", dict_func np_floor_divide);
    ("__truediv__", dict_func np_true_divide);
    ("__radd__", dict_func (lambda_swapped np_add));
    ("__rsub__", dict_func (lambda_swapped np_subtract));
    ("__rmul__", dict_func (lambda_swapped np_multiply));
    ("__rpow__", dict_func (lambda_swapped np_power));
    ("__rmod__", dict_func (lambda_swapped np_mod));
    ("__rfloordiv__", dict_func (lambda_swapped np_floor_divide));
    ("__rtruediv__", dict_func (lambda_swapped np_true_divide));
    (* mask ops *)
    ("__and__", dict_func np_bitwise_and);
    ("__or__", dict_func np_bitwise_or);
    ("__xor__", dict_func np_bitwise_xor);
    ("__rand__", dict_func (lambda_swapped np_bitwise_and));
    ("__ror__", dict_func (lambda_swapped np_bitwise_or));
    ("__rxor__", dict_func (lambda_swapped np_bitwise_xor))
  ];
  readonly := true;
  as_attrs := false
|}.

(** [unary_magic_config] *)
Definition unary_magic_config : Config := {|
  config_items := [
    ("__neg__", dict_func np_negative);
    ("__pos__", dict_func np_positive);
    ("__abs__", dict_func np_absolute);
    ("__invert__", dict_func np_invert)
  ];
  readonly := true;
  as_attrs := false
|}.

(** *** Function objects

    Both decorators define [new_method] with two trailing parameters whose
    default values are evaluated when the [def] statement runs:
    [_translate_func = translate_func] and [_func = func].  A function
    object is its name, its qualified name, which of the two signatures it
    has, and these two defaults ([__defaults__]). *)
Inductive params : Type :=
  | SelfOther   (* (self, other, _translate_func=..., _func=...) *)
  | SelfOnly.   (* (self, _translate_func=..., _func=...) *)

Record function : Type := {
  fn_name : string;
  fn_qualname : string;
  fn_params : params;
  fn_translate_func : TranslateFuncT;
  fn_func : value
}.

(** Calling [new_method]: [args] are the positional arguments bound to
    [self] (and [other]); [_translate_func] and [_func] are [None] when the
    caller leaves them to their defaults.  The body is
    [return _translate_func(self, other, _func)], respectively
    [return _translate_func(self, _func)]. *)
Definition call (m : function) (args : list value)
    (_translate_func : option TranslateFuncT) (_func : option value)
    : exc value :=
  let _translate_func := default (fn_translate_func m) _translate_func in
  let _func := default (fn_func m) _func in
  match fn_params m, args with
  | SelfOther, [self; other] => _translate_func [self; other; _func]
  | SelfOnly, [self] => _translate_func [self; _func]
  | _, _ => Raise (TypeError "new_method() got the wrong number of positional arguments")
  end.

(** *** Classes and the interpreter state *)

Inductive attr : Type :=
  | Method (m : function)
  | Data (o : Obj).

Record pyclass : Type := {
  cls_name : string;               (* cls.__name__ *)
  cls_dict : gmap string attr
}.

(** A class is handled through a reference; the state holds the class
    objects and the two module-level catalogs. *)
Definition cls_ref : Type := nat.

Record world : Type := {
  g_binary_magic_config : Config;
  g_unary_magic_config : Config;
  heap : cls_ref → pyclass
}.

Definition M (A : Type) : Type := world → world * exc A.

Definition ret {A} (a : A) : M A := λ w, (w, Ok a).

Definition raise {A} (e : exn) : M A := λ w, (w, Raise e).

Definition bind {A B} (m : M A) (k : A → M B) : M B :=
  λ w, match m w with
       | (w', Ok a) => k a w'
       | (w', Raise e) => (w', Raise e)
       end.

Definition lift {A} (r : exc A) : M A := λ w, (w, r).

Definition gets {A} (f : world → A) : M A := λ w, (w, Ok (f w)).

(** [for x in l: body(x)]: an exception ends the loop. *)
Fixpoint for_each {A} (l : list A) (body : A → M unit) : M unit :=
  match l with
  | [] => ret tt
  | x :: l' => bind (body x) (λ _, for_each l' body)
  end.

(** The host refuses to rebind some attributes of a type object to a
    function ([__name__] must be a string, [__dict__] is not writable, ...).
    Which names, and with which exception, is left to the host. *)
Class TypeSlots : Type := type_slot : string → option exn.

Context {TS : TypeSlots}.

(** The state after [name] is bound to [a] in the dictionary of [cls]. *)
Definition bound (w : world) (cls : cls_ref) (name : string) (a : attr) : world :=
  let c := heap w cls in
  {| g_binary_magic_config := g_binary_magic_config w;
     g_unary_magic_config := g_unary_magic_config w;
     heap := <[ cls := {| cls_name := cls_name c;
                          cls_dict := <[ name := a ]> (cls_dict c) |} ]> (heap w) |}.

(** [setattr(cls, name, a)] *)
Definition setattr (cls : cls_ref) (name : string) (a : attr) : M unit :=
  match type_slot name with
  | Some e => raise e
  | None => λ w, (bound w cls name a, Ok tt)
  end.

(** The loop body of [attach_binary_magic_methods.wrapper]. *)
Definition install_binary (translate_func : TranslateFuncT) (cls : cls_ref)
    (item : string * settings_t) : M unit :=
  let '(target_name, settings) := item in
  bind (lift (dict_getitem settings "func")) (λ func,
  bind (gets (λ w, cls_name (heap w cls))) (λ cls__name__,
  let new_method := {|
    fn_qualname := cls__name__ ++ "." ++ target_name;
    fn_name := target_name;
    fn_params := SelfOther;
    fn_translate_func := translate_func;
    fn_func := func
  |} in
  setattr cls target_name (Method new_method))).

(** [attach_binary_magic_methods.wrapper] *)
Definition wrapper_binary (translate_func : TranslateFuncT) (config : Config)
    (cls : cls_ref) : M cls_ref :=
  bind (for_each (config_items config) (install_binary translate_func cls))
       (λ _, ret cls).

(** [attach_binary_magic_methods] *)
Definition attach_binary_magic_methods (translate_func : TranslateFuncT)
    (config : option Config) : M (cls_ref → M cls_ref) :=
  bind (match config with
        | None => gets g_binary_magic_config
        | Some config => ret config
        end) (λ config,
  ret (wrapper_binary translate_func config)).

(** The loop body of [attach_unary_magic_methods.wrapper]. *)
Definition install_unary (translate_func : TranslateFuncT) (cls : cls_ref)
    (item : string * settings_t) : M unit :=
  let '(target_name, settings) := item in
  bind (lift (dict_getitem settings "func")) (λ func,
  bind (gets (λ w, cls_name (heap w cls))) (λ cls__name__,
  let new_method := {|
    fn_qualname := cls__name__ ++ "." ++ target_name;
    fn_name := target_name;
    fn_params := SelfOnly;
    fn_translate_func := translate_func;
    fn_func := func
  |} in
  setattr cls target_name (Method new_method))).

(** [attach_unary_magic_methods.wrapper] *)
Definition wrapper_unary (translate_func : TranslateFuncT) (config : Config)
    (cls : cls_ref) : M cls_ref :=
  bind (for_each (config_items config) (install_unary translate_func cls))
       (λ _, ret cls).

(** [attach_unary_magic_methods] *)
Definition attach_unary_magic_methods (translate_func : TranslateFuncT)
    (config : option Config) : M (cls_ref → M cls_ref) :=
  bind (match config with
        | None => gets g_unary_magic_config
        | Some config => ret config
        end) (λ config,
  ret (wrapper_unary translate_func config)).

(** [@attach_binary_magic_methods(translate_func, config)] above a class:
    the factory is called, then what it returns is applied to the class. *)
Definition decorate_binary (translate_func : TranslateFuncT)
    (config : option Config) (cls : cls_ref) : M cls_ref :=
  bind (attach_binary_magic_methods translate_func config) (λ wrapper, wrapper cls).

Definition decorate_unary (translate_func : TranslateFuncT)
    (config : option Config) (cls : cls_ref) : M cls_ref :=
  bind (attach_unary_magic_methods translate_func config) (λ wrapper, wrapper cls).

(** Operator dispatch: [a + b] looks [__add__] up on the class of [a] and
    calls it with [a] and [b]; [-a] calls [__neg__] with [a].  The optional
    parameters are those of an explicit call. *)
Definition invoke (w : world) (cls : cls_ref) (name : string)
    (args : list value)
    (_translate_func : option TranslateFuncT) (_func : option value)
    : exc value :=
  match cls_dict (heap w cls) !! name with
  | Some (Method m) => call m args _translate_func _func
  | Some (Data _) => Raise (TypeError "object is not callable")
  | None => Raise (AttributeError name)
  end.

(** *** Notions used to state the properties *)

(** The function object the loop body builds for one catalog entry. *)
Definition new_method (p : params) (translate_func : TranslateFuncT)
    (cls__name__ target_name : string) (func : value) : function := {|
  fn_qualname := cls__name__ ++ "." ++ target_name;
  fn_name := target_name;
  fn_params := p;
  fn_translate_func := translate_func;
  fn_func := func
|}.

(** An entry the loop body gets through: it has a [func] and the host lets
    its name be bound. *)
Definition installable (item : string * settings_t) : Prop :=
  is_Some (item.2 !! "func") ∧ type_slot item.1 = None.

Definition install (p : params) : TranslateFuncT → cls_ref → string * settings_t → M unit :=
  match p with SelfOther => install_binary | SelfOnly => install_unary end.

Definition wrapper (p : params) : TranslateFuncT → Config → cls_ref → M cls_ref :=
  match p with SelfOther => wrapper_binary | SelfOnly => wrapper_unary end.

Definition decorate (p : params) : TranslateFuncT → option Config → cls_ref → M cls_ref :=
  match p with SelfOther => decorate_binary | SelfOnly => decorate_unary end.

(** The catalog a decorator works with: the one passed, else the module's. *)
Definition catalog_of (p : params) (config : option Config) (w : world) : Config :=
  match config with
  | Some config => config
  | None =>
      match p with
      | SelfOther => g_binary_magic_config w
      | SelfOnly => g_unary_magic_config w
      end
  end.

(** The class dictionary after the entries of a catalog were bound in
    order. *)
Definition bind_entry (p : params) (translate_func : TranslateFuncT)
    (cls__name__ : string) (d : gmap string attr) (item : string * settings_t)
    : gmap string attr :=
  match item.2 !! "func" with
  | Some func => <[ item.1 := Method (new_method p translate_func cls__name__ item.1 func) ]> d
  | None => d
  end.

Definition bind_entries (p : params) (translate_func : TranslateFuncT)
    (cls__name__ : string) (items : list (string * settings_t))
    (d : gmap string attr) : gmap string attr :=
  foldl (bind_entry p translate_func cls__name__) d items.

(** The operators the built-in catalogs are meant to hold, by group, each
    with the NumPy function that computes it. *)
Definition comparison_operators : list (string * pyfunc) :=
  [("__eq__", np_equal); ("__ne__", np_not_equal); ("__lt__", np_less);
   ("__gt__", np_greater); ("__le__", np_less_equal); ("__ge__", np_greater_equal)].

Definition arithmetic_operators : list (string * pyfunc) :=
  [("__add__", np_add); ("__sub__", np_subtract); ("__mul__", np_multiply);
   ("__pow__", np_power); ("__mod__", np_mod); ("__floordiv__", np_floor_divide);
   ("__truediv__", np_true_divide)].

Definition bitwise_operators : list (string * pyfunc) :=
  [("__and__", np_bitwise_and); ("__or__", np_bitwise_or); ("__xor__", np_bitwise_xor)].

Definition unary_operators : list (string * pyfunc) :=
  [("__neg__", np_negative); ("__pos__", np_positive); ("__abs__", np_absolute);
   ("__invert__", np_invert)].

(** The name of the reflected counterpart: [__sub__] gives [__rsub__]. *)
Definition reflected_name (name : string) : string :=
  "__r" ++ String.substring 2 (String.length name - 2) name.

(** Two states that hold the same catalogs and the same classes. *)
Definition same_world (w1 w2 : world) : Prop :=
  g_binary_magic_config w1 = g_binary_magic_config w2 ∧
  g_unary_magic_config w1 = g_unary_magic_config w2 ∧
  ∀ c, heap w1 c = heap w2 c.

(** Statements run one after another at top level: a decoration of a class,
    or an attempt to mutate one of the two module catalogs.  An exception
    ends the statement it is raised in, not the ones after it. *)
Inductive statement : Type :=
  | Decorate (p : params) (translate_func : TranslateFuncT)
             (config : option Config) (cls : cls_ref)
  | MutateBinary (m : mutation)
  | MutateUnary (m : mutation).

Definition run_statement (s : statement) : M unit :=
  match s with
  | Decorate p translate_func config cls =>
      bind (decorate p translate_func config cls) (λ _, ret tt)
  | MutateBinary m =>
      λ w, match config_mutate (g_binary_magic_config w) m with
           | Ok c => ({| g_binary_magic_config := c;
                         g_unary_magic_config := g_unary_magic_config w;
                         heap := heap w |}, Ok tt)
           | Raise e => (w, Raise e)
           end
  | MutateUnary m =>
      λ w, match config_mutate (g_unary_magic_config w) m with
           | Ok c => ({| g_binary_magic_config := g_binary_magic_config w;
                         g_unary_magic_config := c;
                         heap := heap w |}, Ok tt)
           | Raise e => (w, Raise e)
           end
  end.

Definition run_statements (l : list statement) (w : world) : world :=
  foldl (λ w s, (run_statement s w).1) w l.

(** The module as it stands after import. *)
Definition module_init (classes : cls_ref → pyclass) : world := {|
  g_binary_magic_config := binary_magic_config;
  g_unary_magic_config := unary_magic_config;
  heap := classes
|}.

End Decorators.

Abbreviation settings_t Obj := (gmap string (value Obj)) (only parsing).

Arguments VObj {Obj} o.
Arguments VFunc {Obj} f.
Arguments np_equal {Obj Numpy}.
Arguments np_not_equal {Obj Numpy}.
Arguments np_less {Obj Numpy}.
Arguments np_greater {Obj Numpy}.
Arguments np_less_equal {Obj Numpy}.
Arguments np_greater_equal {Obj Numpy}.
Arguments np_add {Obj Numpy}.
Arguments np_subtract {Obj Numpy}.
Arguments np_multiply {Obj Numpy}.
Arguments np_power {Obj Numpy}.
Arguments np_mod {Obj Numpy}.
Arguments np_floor_divide {Obj Numpy}.
Arguments np_true_divide {Obj Numpy}.
Arguments np_bitwise_and {Obj Numpy}.
Arguments np_bitwise_or {Obj Numpy}.
Arguments np_bitwise_xor {Obj Numpy}.
Arguments np_negative {Obj Numpy}.
Arguments np_positive {Obj Numpy}.
Arguments np_absolute {Obj Numpy}.
Arguments np_invert {Obj Numpy}.
Arguments lambda_swapped {Obj} f args.
Arguments dict_func {Obj} f.
Arguments dict_getitem {Obj} d key.
Arguments Build_Config {Obj}.
Arguments config_items {Obj} c.
Arguments readonly {Obj} c.
Arguments as_attrs {Obj} c.
Arguments config_wf {Obj} c.
Arguments assoc_get {Obj} key l.
Arguments assoc_set {Obj} key v l.
Arguments assoc_del {Obj} key l.
Arguments config_get {Obj} c key.
Arguments SetItem {Obj}.
Arguments DelItem {Obj}.
Arguments Pop {Obj}.
Arguments Update {Obj}.
Arguments Clear {Obj}.
Arguments config_mutate {Obj} c m.
Arguments binary_magic_config {Obj NP}.
Arguments unary_magic_config {Obj NP}.
Arguments Build_function {Obj}.
Arguments fn_name {Obj} f.
Arguments fn_qualname {Obj} f.
Arguments fn_params {Obj} f.
Arguments fn_translate_func {Obj} f.
Arguments fn_func {Obj} f.
Arguments call {Obj} m args _translate_func _func.
Arguments Method {Obj} m.
Arguments Data {Obj} o.
Arguments Build_pyclass {Obj}.
Arguments cls_name {Obj} p.
Arguments cls_dict {Obj} p.
Arguments Build_world {Obj}.
Arguments g_binary_magic_config {Obj} w.
Arguments g_unary_magic_config {Obj} w.
Arguments heap {Obj} w.
Arguments ret {Obj A} a.
Arguments raise {Obj A} e.
Arguments bind {Obj A B} m k.
Arguments lift {Obj A} r.
Arguments gets {Obj A} f.
Arguments for_each {Obj A} l body.
Arguments bound {Obj} w cls name a.
Arguments setattr {Obj TS} cls name a.
Arguments install_binary {Obj TS} translate_func cls item.
Arguments wrapper_binary {Obj TS} translate_func config cls.
Arguments attach_binary_magic_methods {Obj TS} translate_func config.
Arguments install_unary {Obj TS} translate_func cls item.
Arguments wrapper_unary {Obj TS} translate_func config cls.
Arguments attach_unary_magic_methods {Obj TS} translate_func config.
Arguments decorate_binary {Obj TS} translate_func config cls.
Arguments decorate_unary {Obj TS} translate_func config cls.
Arguments invoke {Obj} w cls name args _translate_func _func.
Arguments new_method {Obj} p translate_func cls__name__ target_name func.
Arguments installable {Obj TS} item.
Arguments install {Obj TS} p.
Arguments wrapper {Obj TS} p.
Arguments decorate {Obj TS} p.
Arguments catalog_of {Obj} p config w.
Arguments bind_entry {Obj} p translate_func cls__name__ d item.
Arguments bind_entries {Obj} p translate_func cls__name__ items d.
Arguments comparison_operators {Obj NP}.
Arguments arithmetic_operators {Obj NP}.
Arguments bitwise_operators {Obj NP}.
Arguments unary_operators {Obj NP}.
Arguments same_world {Obj} w1 w2.
Arguments Decorate {Obj}.
Arguments MutateBinary {Obj}.
Arguments MutateUnary {Obj}.
Arguments run_statement {Obj TS} s.
Arguments run_statements {Obj TS} l w.
Arguments module_init {Obj NP} classes.

End Magic.

(** ** image_.py *)

Module Image.

(** The integer element types an image array comes in.  Floating-point
    images are outside this model. *)
Inductive dtype : Type := uint8 | uint16 | int64.

(** Storing an integer into an array of element type [t] keeps its low
    bits (NumPy converts with C semantics on assignment). *)
Definition cast (t : dtype) (z : Z) : Z :=
  match t with
  | uint8 => z mod 2 ^ 8
  | uint16 => z mod 2 ^ 16
  | int64 => (z + 2 ^ 63) mod 2 ^ 64 - 2 ^ 63
  end.

(** [tp.Array3d]: a three-dimensional array: its shape, its element type
    and its cells, read at indices below the shape. *)
Record ndarray : Type := {
  shape : nat * nat * nat;
  dtype_of : dtype;
  item : nat → nat → nat → Z
}.

(** [np.full(shape, fill_value, dtype)] *)
Definition np_full (sh : nat * nat * nat) (fill_value : Z) (t : dtype) : ndarray :=
  {| shape := sh; dtype_of := t; item := λ _ _ _, cast t fill_value |}.

(** Broadcasting one axis of the assigned value to the axis of the target
    region: equal lengths, or length one repeated. *)
Definition broadcastable (n_src n_dst : nat) : bool :=
  bool_decide (n_src = n_dst) || bool_decide (n_src = 1).

Definition src_index (n_src i : nat) : nat := if bool_decide (n_src = 1) then 0 else i.

(** [c[r0:r1, c0:c1, :] = src] with non-negative bounds: a slice bound past
    the axis is clipped to it, the value is broadcast to the selected
    region and converted to the element type of [c]. *)
Definition setitem (c : ndarray) (r0 r1 c0 c1 : nat) (src : ndarray) : exc ndarray :=
  let '(H, W, D) := shape c in
  let '(sh, sw, sd) := shape src in
  let r0' := r0 `min` H in let r1' := r1 `min` H in
  let c0' := c0 `min` W in let c1' := c1 `min` W in
  if broadcastable sh (r1' - r0') && broadcastable sw (c1' - c0') && broadcastable sd D
  then Ok {| shape := shape c;
             dtype_of := dtype_of c;
             item := λ i j k,
               if bool_decide (r0' ≤ i < r1') && bool_decide (c0' ≤ j < c1')
               then cast (dtype_of c)
                      (item src (src_index sh (i - r0')) (src_index sw (j - c0')) (src_index sd k))
               else item c i j k |}
  else Raise (ValueError "could not broadcast input array")
  .

Definition bind {A B} (r : exc A) (k : A → exc B) : exc B :=
  match r with
  | Ok a => k a
  | Raise e => Raise e
  end.

(** [hstack_image_arrays] *)
Definition hstack_image_arrays (a b : ndarray) : exc ndarray :=
  let '(h1, w1, d) := shape a in
  let '(h2, w2, _) := shape b in
  let c := np_full (h1 `max` h2, w1 + w2, d) 255 uint8 in
  bind (setitem c 0 h1 0 w1 a) (λ c,
  bind (setitem c 0 h2 w1 (w1 + w2) b) (λ c,
  Ok c)).

(** [vstack_image_arrays] *)
Definition vstack_image_arrays (a b : ndarray) : exc ndarray :=
  let '(h1, w1, d) := shape a in
  let '(h2, w2, _) := shape b in
  let c := np_full (h1 + h2, w1 `max` w2, d) 255 uint8 in
  bind (setitem c 0 h1 0 w1 a) (λ c,
  bind (setitem c h1 (h1 + h2) 0 w2 b) (λ c,
  Ok c)).

(** A one-pixel 16-bit image and a one-pixel 8-bit image. *)
Definition pixel16 : ndarray :=
  {| shape := (1, 1, 1); dtype_of := uint16; item := λ _ _ _, 300%Z |}.

Definition pixel8 : ndarray :=
  {| shape := (1, 1, 1); dtype_of := uint8; item := λ _ _ _, 7%Z |}.

(** [np.swapaxes(a, 0, 1)]: rows and columns exchanged. *)
Definition swapaxes (a : ndarray) : ndarray :=
  let '(h, w, d) := shape a in
  {| shape := (w, h, d); dtype_of := dtype_of a; item := λ i j k, item a j i k |}.

(** The result of a call on which stacking is to be continued. *)
Definition and_then (r : exc ndarray) (k : ndarray → exc ndarray) : exc ndarray :=
  bind r k.

(** One-pixel images with three, four and one channel, an image without
    pixels, and a two by two grey image. *)
Definition rgb_pixel : ndarray :=
  {| shape := (1, 1, 3); dtype_of := uint8; item := λ _ _ k, (10 * Z.of_nat k)%Z |}.

Definition rgba_pixel : ndarray :=
  {| shape := (1, 1, 4); dtype_of := uint8; item := λ _ _ k, (20 * Z.of_nat k)%Z |}.

Definition grey_pixel : ndarray :=
  {| shape := (1, 1, 1); dtype_of := uint8; item := λ _ _ _, 99%Z |}.

Definition no_pixels : ndarray :=
  {| shape := (0, 0, 3); dtype_of := uint8; item := λ _ _ _, 0%Z |}.

Definition grey_square : ndarray :=
  {| shape := (2, 2, 1); dtype_of := uint16;
     item := λ i j _, (Z.of_nat i * 2 + Z.of_nat j + 255)%Z |}.

End Image.

(** ** Concrete operands, translation functions and catalogs

    Wrapped integers stand for the domain objects: [Wrapped(3)] is [3]. *)

Module Scenario.

Import Magic.

Definition two_args (f : Z → Z → Z) : pyfunc Z :=
  λ args,
    match args with
    | [x; y] => Ok (f x y)
    | _ => Raise (TypeError "expected 2 positional arguments")
    end.

Definition one_arg (f : Z → Z) : pyfunc Z :=
  λ args,
    match args with
    | [x] => Ok (f x)
    | _ => Raise (TypeError "expected 1 positional argument")
    end.

Definition truth (b : bool) : Z := if b then 1%Z else 0%Z.

(** NumPy's functions on integer scalars.  True division leaves the
    integers and is not given a result here. *)
#[global] Instance int_scalar_numpy : Numpy Z := {|
  Magic.np_equal := two_args (λ x y, truth (bool_decide (x = y)));
  Magic.np_not_equal := two_args (λ x y, truth (bool_decide (x ≠ y)));
  Magic.np_less := two_args (λ x y, truth (bool_decide (x < y)%Z));
  Magic.np_greater := two_args (λ x y, truth (bool_decide (y < x)%Z));
  Magic.np_less_equal := two_args (λ x y, truth (bool_decide (x ≤ y)%Z));
  Magic.np_greater_equal := two_args (λ x y, truth (bool_decide (y ≤ x)%Z));
  Magic.np_add := two_args Z.add;
  Magic.np_subtract := two_args Z.sub;
  Magic.np_multiply := two_args Z.mul;
  Magic.np_power := λ args,
    match args with
    | [x; y] =>
        if bool_decide (y < 0)%Z
        then Raise (ValueError "Integers to negative integer powers are not allowed.")
        else Ok (x ^ y)%Z
    | _ => Raise (TypeError "expected 2 positional arguments")
    end;
  Magic.np_mod := two_args (λ x y, if bool_decide (y = 0%Z) then 0%Z else (x `mod` y)%Z);
  Magic.np_floor_divide := two_args (λ x y, if bool_decide (y = 0%Z) then 0%Z else (x `div` y)%Z);
  Magic.np_true_divide := λ _, Raise (OtherError "floating-point result");
  Magic.np_bitwise_and := two_args Z.land;
  Magic.np_bitwise_or := two_args Z.lor;
  Magic.np_bitwise_xor := two_args Z.lxor;
  Magic.np_negative := one_arg Z.opp;
  Magic.np_positive := one_arg id;
  Magic.np_absolute := one_arg Z.abs;
  Magic.np_invert := one_arg Z.lnot
|}.

(** A binary translation function: unwrap both operands, combine, wrap. *)
Definition translate_pair : TranslateFuncT Z :=
  λ args,
    match args with
    | [VObj a; VObj b; VFunc f] =>
        match f [a; b] with Ok r => Ok (VObj r) | Raise e => Raise e end
    | [_; _; _] => Raise (TypeError "unsupported operand")
    | _ => Raise (TypeError "translate() takes 3 positional arguments")
    end.

(** A unary translation function; as a binary one it has the wrong
    arity. *)
Definition translate_one : TranslateFuncT Z :=
  λ args,
    match args with
    | [VObj a; VFunc f] =>
        match f [a] with Ok r => Ok (VObj r) | Raise e => Raise e end
    | [_; _] => Raise (TypeError "unsupported operand")
    | _ => Raise (TypeError "translate() takes 2 positional arguments")
    end.

(** Another binary translation function: it ignores the combination
    function and returns the left operand. *)
Definition keep_left : TranslateFuncT Z :=
  λ args,
    match args with
    | [a; _; _] => Ok a
    | _ => Raise (TypeError "keep_left() takes 3 positional arguments")
    end.

#[global] Instance plain_type_slots : TypeSlots :=
  λ name,
    if bool_decide (name ∈ ["__name__"; "__qualname__"; "__bases__"; "__class__"])
    then Some (TypeError "can only assign a value of the slot's type")
    else if bool_decide (name ∈ ["__dict__"; "__mro__"])
    then Some (AttributeError "attribute is not writable")
    else None.

Definition catalog (items : list (string * settings_t Z)) : Config Z :=
  {| config_items := items; readonly := false; as_attrs := false |}.

(** [{"combine": {func: elementwise_add}}] *)
Definition combine_catalog : Config Z :=
  catalog [("combine", dict_func (two_args Z.add))].

Definition add_sub_catalog : Config Z :=
  catalog [("__add__", dict_func (two_args Z.add));
           ("__sub__", dict_func (two_args Z.sub))].

(** A catalog whose second entry has no [func]. *)
Definition broken_catalog : Config Z :=
  catalog [("__add__", dict_func (two_args Z.add)); ("__sub__", ∅)].

Definition negate_catalog : Config Z :=
  catalog [("__neg__", dict_func (one_arg Z.opp))].

(** Class 0 is [class Wrapped] with an empty body. *)
Definition Wrapped : cls_ref := 0.

Definition fresh_classes : cls_ref → pyclass Z :=
  λ _, {| cls_name := "Wrapped"; cls_dict := ∅ |}.

Definition world0 : world Z := module_init fresh_classes.

(** The state a statement leaves. *)
Definition after {A} (m : M Z A) (w : world Z) : world Z := (m w).1.

(** A catalog whose second entry is named after a slot of the type. *)
Definition slot_catalog : Config Z :=
  catalog [("__add__", dict_func (two_args Z.add));
           ("__name__", dict_func (two_args Z.sub))].

(** A class that already holds a data attribute. *)
Definition stocked_classes : cls_ref → pyclass Z :=
  λ _, {| cls_name := "Wrapped"; cls_dict := {[ "unit" := Data 1%Z ]} |}.

Definition world_stocked : world Z := module_init stocked_classes.

End Scenario.

(** ** image_.py: [save_animation] *)

Module Animation.

Definition ImportError : exn := OtherError "ImportError".
Definition IndexError : exn := OtherError "IndexError".

(** [range(0, stop, step)] *)
Definition py_range (stop step : Z) : exc (list Z) :=
  if bool_decide (step = 0)%Z
  then Raise (ValueError "range() arg 3 must not be zero")
  else
    let len :=
      if bool_decide (0 < step)%Z
      then (if bool_decide (0 < stop)%Z then (stop - 1) `div` step + 1 else 0)%Z
      else (if bool_decide (stop < 0)%Z then (stop + 1) `div` step + 1 else 0)%Z in
    Ok ((λ k, k * step)%Z <$> seqZ 0 len).

(** [l[i]]: a negative index counts from the end. *)
Definition py_getitem {A} (l : list A) (i : Z) : exc A :=
  let n := Z.of_nat (length l) in
  let i := if bool_decide (i < 0)%Z then (i + n)%Z else i in
  if bool_decide (0 ≤ i < n)%Z
  then match l !! Z.to_nat i with
       | Some x => Ok x
       | None => Raise IndexError
       end
  else Raise IndexError.

(** [l[start:stop]]: a negative bound counts from the end, and bounds are
    clipped to the sequence. *)
Definition py_slice {A} (l : list A) (start stop : Z) : list A :=
  let n := Z.of_nat (length l) in
  let clip x := if bool_decide (x < 0)%Z then Z.max (x + n) 0 else Z.min x n in
  let start := clip start in
  let stop := clip stop in
  take (Z.to_nat (stop - start)) (drop (Z.to_nat start) l).

Section SaveAnimation.

(** The elements of the index, Plotly figures, images [imageio.imread]
    can read, and NumPy arrays. *)
Context {Elt PFig Img Arr : Type}.

(** What [plot_func] returns: "either a Plotly figure, image that can be
    read by [imageio.imread], or a NumPy array". *)
Inductive figure : Type :=
  | PlotlyFigure (fig : PFig)
  | Image (uri : Img)
  | Array (a : Arr).

(** What the function takes from outside: whether [plotly] can be imported
    ([assert_can_import]), [str] on the elements of the index,
    [fig.to_image(format="png", **to_image_kwargs)], [imageio.imread], and
    whether the progress bar closes itself when the loop over it is left
    by an exception. *)
Class Host : Type := {
  plotly_available : bool;
  str : Elt → string;
  to_image : PFig → exc Img;
  imread : Img → exc Arr;
  pbar_closes_when_abandoned : bool
}.

Context {H : Host}.

(** What the call leaves behind: the writer [imageio.get_writer] opened,
    with the frames appended to it, and the progress bar. *)
Record io : Type := {
  writer_opened : option (string * Z);    (* fname, fps *)
  frames : list Arr;
  writer_closed : bool;
  pbar_created : bool;
  description : option string;
  pbar_closed : bool
}.

Definition nothing : io := {|
  writer_opened := None; frames := []; writer_closed := false;
  pbar_created := false; description := None; pbar_closed := false
|}.

Definition get_writer (fname : string) (fps : Z) (s : io) : io :=
  {| writer_opened := Some (fname, fps); frames := frames s;
     writer_closed := writer_closed s; pbar_created := pbar_created s;
     description := description s; pbar_closed := pbar_closed s |}.

Definition append_data (a : Arr) (s : io) : io :=
  {| writer_opened := writer_opened s; frames := frames s ++ [a];
     writer_closed := writer_closed s; pbar_created := pbar_created s;
     description := description s; pbar_closed := pbar_closed s |}.

Definition close_writer (s : io) : io :=
  {| writer_opened := writer_opened s; frames := frames s;
     writer_closed := true; pbar_created := pbar_created s;
     description := description s; pbar_closed := pbar_closed s |}.

(** Modelled from the spec: [get_pbar] of vectorbt/utils/pbar.py, which is
    not among the sources: the "progress-reporting utility" wrapped around
    the range; iterating it gives the elements of the range in order.
    What the bar does when the loop over it is left by an exception is not
    said there: it is the host's [pbar_closes_when_abandoned]. *)
Definition get_pbar (s : io) : io :=
  {| writer_opened := writer_opened s; frames := frames s;
     writer_closed := writer_closed s; pbar_created := true;
     description := description s; pbar_closed := pbar_closed s |}.

(** The loop over the bar is left by an exception: [pbar.close()] after the
    loop is not reached, and the bar is closed if it closes itself. *)
Definition abandon_pbar (s : io) : io :=
  {| writer_opened := writer_opened s; frames := frames s;
     writer_closed := writer_closed s; pbar_created := pbar_created s;
     description := description s;
     pbar_closed := pbar_closed s || pbar_closes_when_abandoned |}.

Definition set_description (d : string) (s : io) : io :=
  {| writer_opened := writer_opened s; frames := frames s;
     writer_closed := writer_closed s; pbar_created := pbar_created s;
     description := Some d; pbar_closed := pbar_closed s |}.

Definition close_pbar (s : io) : io :=
  {| writer_opened := writer_opened s; frames := frames s;
     writer_closed := writer_closed s; pbar_created := pbar_created s;
     description := description s; pbar_closed := true |}.

(** The two [isinstance] tests: a Plotly figure is turned into PNG bytes;
    what is not an array then is read by [imageio.imread]. *)
Definition to_frame (fig : figure) : exc Arr :=
  match fig with
  | PlotlyFigure fig =>
      match to_image fig with
      | Ok png => imread png
      | Raise e => Raise e
      end
  | Image uri => imread uri
  | Array a => Ok a
  end.

(** The body of the loop, for one [i]. *)
Definition plot_frame (index : list Elt) (plot_func : list Elt → exc figure)
    (delta : Z) (i : Z) (s : io) : io * exc unit :=
  match py_getitem index i with
  | Raise e => (s, Raise e)
  | Ok first =>
      match py_getitem index (i + delta - 1) with
      | Raise e => (s, Raise e)
      | Ok last =>
          let s := set_description (str first ++ " - " ++ str last) s in
          match plot_func (py_slice index i (i + delta)) with
          | Raise e => (s, Raise e)
          | Ok fig =>
              match to_frame fig with
              | Raise e => (s, Raise e)
              | Ok a => (append_data a s, Ok tt)
              end
          end
      end
  end.

(** [for i in pbar: ...]: an exception ends the loop. *)
Fixpoint for_each (l : list Z) (body : Z → io → io * exc unit) (s : io)
    : io * exc unit :=
  match l with
  | [] => (s, Ok tt)
  | i :: l' =>
      match body i s with
      | (s', Ok _) => for_each l' body s'
      | (s', Raise e) => (s', Raise e)
      end
  end.

(** [save_animation(fname, index, plot_func, delta=delta, step=step,
    fps=fps)], started with nothing open; [*args] and [**kwargs] are part
    of [plot_func].  The [with] statement closes the writer on the way
    out, also when an exception passes through it. *)
Definition save_animation (fname : string) (index : list Elt)
    (plot_func : list Elt → exc figure)
    (delta : option Z) (step : Z) (fps : Z) : io * exc unit :=
  if negb plotly_available then (nothing, Raise ImportError)
  else
    let delta :=
      match delta with
      | None => (Z.of_nat (length index) `div` 2)%Z
      | Some delta => delta
      end in
    let s := get_writer fname fps nothing in
    let '(s, r) :=
      match py_range (Z.of_nat (length index) - delta) step with
      | Raise e => (s, Raise e)
      | Ok range =>
          let s := get_pbar s in
          match for_each range (plot_frame index plot_func delta) s with
          | (s, Ok _) => (close_pbar s, Ok tt)
          | (s, Raise e) => (abandon_pbar s, Raise e)
          end
      end in
    (close_writer s, r).

(** *** Notions used to state the properties *)

(** One frame: the figure of a window, made an array. *)
Definition render (plot_func : list Elt → exc figure) (window : list Elt) : exc Arr :=
  match plot_func window with
  | Ok fig => to_frame fig
  | Raise e => Raise e
  end.

(** The number of windows of [d] elements that start at multiples of [s]
    and end before the last element of a sequence of [n] elements. *)
Definition frame_count (n d s : nat) : nat :=
  if bool_decide (n ≤ d)%nat then 0 else ((n - d - 1) `div` s + 1)%nat.

(** Those windows, in order. *)
Definition windows (index : list Elt) (d s : nat) : list (list Elt) :=
  (λ k, take d (drop (k * s) index)) <$> seq 0 (frame_count (length index) d s).

(** The fields an iteration does not touch. *)
Definition same_handles (s s' : io) : Prop :=
  writer_opened s' = writer_opened s ∧ writer_closed s' = writer_closed s ∧
  pbar_created s' = pbar_created s ∧ pbar_closed s' = pbar_closed s.

(** The delta the call works with. *)
Definition delta_of (index : list Elt) (delta : option Z) : Z :=
  match delta with
  | None => (Z.of_nat (length index) `div` 2)%Z
  | Some delta => delta
  end.

End SaveAnimation.

Arguments figure : clear implicits.
Arguments Host : clear implicits.
Arguments io : clear implicits.

(** *** A concrete run: the index holds strings, a frame is the window
    itself *)

#[global] Instance plain_host : Host string unit string (list string) := {|
  plotly_available := true;
  str := id;
  to_image := λ _, Ok "png";
  imread := λ uri, Ok [uri];
  pbar_closes_when_abandoned := true
|}.

Definition five_days : list string := ["mon"; "tue"; "wed"; "thu"; "fri"].

Definition show_window : list string → exc (figure unit string (list string)) :=
  λ window, Ok (Array window).


End Animation.

(** ** Properties of the decorators *)

Module MagicProofs.

Import Magic.

Section Loop.

Context {Obj : Type} {TS : TypeSlots}.

Implicit Types (w : world Obj) (cls : cls_ref) (p : params).
Implicit Types (translate_func : TranslateFuncT Obj).
Implicit Types (items : list (string * settings_t Obj)).
Implicit Types (d : gmap string (attr Obj)).

(** The state after the entries of a catalog were bound on [cls]. *)
Definition loop_result p translate_func cls items w w' : Prop :=
  g_binary_magic_config w' = g_binary_magic_config w ∧
  g_unary_magic_config w' = g_unary_magic_config w ∧
  heap w' cls =
    {| cls_name := cls_name (heap w cls);
       cls_dict := bind_entries p translate_func (cls_name (heap w cls)) items
                     (cls_dict (heap w cls)) |} ∧
  ∀ c, c ≠ cls → heap w' c = heap w c.

Lemma bind_ok {A B} (m : M Obj A) (k : A → M Obj B) w w1 a :
  m w = (w1, Ok a) → bind m k w = k a w1.
Proof. intros E. unfold bind. by rewrite E. Qed.

Lemma bind_raise {A B} (m : M Obj A) (k : A → M Obj B) w w1 e :
  m w = (w1, Raise e) → bind m k w = (w1, Raise e).
Proof. intros E. unfold bind. by rewrite E. Qed.

Lemma install_step p translate_func cls name settings w :
  install p translate_func cls (name, settings) w =
    match settings !! "func" with
    | None => (w, Raise (KeyError "func"))
    | Some func =>
        match type_slot name with
        | Some e => (w, Raise e)
        | None =>
            (bound w cls name
               (Method (new_method p translate_func (cls_name (heap w cls)) name func)),
             Ok tt)
        end
    end.
Proof.
  destruct p; cbn; unfold bind, lift, gets, dict_getitem, setattr;
    destruct (settings !! "func"); cbn; try done;
    by destruct (type_slot name).
Qed.

Lemma install_installable p translate_func cls item w :
  installable item →
  ∃ func, item.2 !! "func" = Some func ∧
    install p translate_func cls item w =
      (bound w cls item.1
         (Method (new_method p translate_func (cls_name (heap w cls)) item.1 func)),
       Ok tt).
Proof.
  destruct item as [name settings]. intros [[func Hf] Hs]. cbn in *.
  exists func. split; [done|]. rewrite install_step. by rewrite Hf, Hs.
Qed.

Lemma install_ok_inv p translate_func cls item w w' u :
  install p translate_func cls item w = (w', Ok u) → installable item.
Proof.
  destruct item as [name settings]. rewrite install_step. unfold installable. cbn.
  destruct (settings !! "func"); [|done].
  destruct (type_slot name); [done|]. eauto.
Qed.

Lemma for_each_app {A} (l1 l2 : list A) (body : A → M Obj unit) w :
  for_each (l1 ++ l2) body w =
    match for_each l1 body w with
    | (w1, Ok _) => for_each l2 body w1
    | (w1, Raise e) => (w1, Raise e)
    end.
Proof.
  revert w. induction l1 as [|x l1 IH]; intros w; cbn; [done|].
  unfold bind. destruct (body x w) as [w1 [[]|e]]; [apply IH|done].
Qed.

Lemma bind_entry_func p translate_func cname d name settings func :
  settings !! "func" = Some func →
  bind_entry p translate_func cname d (name, settings) =
    <[ name := Method (new_method p translate_func cname name func) ]> d.
Proof. intros Hf. unfold bind_entry. cbn. by rewrite Hf. Qed.

Lemma loop_result_nil p translate_func cls w : loop_result p translate_func cls [] w w.
Proof. repeat split; by destruct (heap w cls). Qed.

Lemma loop_result_cons p translate_func cls name settings func items w w' :
  settings !! "func" = Some func →
  loop_result p translate_func cls items
    (bound w cls name
       (Method (new_method p translate_func (cls_name (heap w cls)) name func))) w' →
  loop_result p translate_func cls ((name, settings) :: items) w w'.
Proof.
  intros Hf (Hb & Hu & Hc & Ho). unfold bound in *. cbn in *.
  rewrite fn_lookup_insert in Hc. cbn in Hc.
  repeat split; [done|done| |].
  - rewrite Hc. unfold bind_entries. cbn.
    by rewrite (bind_entry_func _ _ _ _ _ _ _ Hf).
  - intros c Hne. rewrite (Ho c Hne). by rewrite fn_lookup_insert_ne.
Qed.

(** The loop gets through exactly the catalogs whose entries are all
    installable, and then the class holds the entries bound in order. *)
Lemma for_each_install_ok p translate_func cls items w :
  Forall installable items →
  ∃ w', for_each items (install p translate_func cls) w = (w', Ok tt) ∧
        loop_result p translate_func cls items w w'.
Proof.
  intros Hall. revert w. induction Hall as [|[name settings] items Hx _ IH]; intros w.
  - exists w. split; [done|apply loop_result_nil].
  - destruct (install_installable p translate_func cls _ w Hx) as (func & Hf & Hi).
    cbn in Hf, Hi.
    destruct (IH (bound w cls name
      (Method (new_method p translate_func (cls_name (heap w cls)) name func))))
      as (w' & Hrun & Hres).
    exists w'. split.
    + cbn. by rewrite (bind_ok _ _ _ _ _ Hi).
    + by eapply loop_result_cons.
Qed.

Lemma for_each_install_inv p translate_func cls items w w' u :
  for_each items (install p translate_func cls) w = (w', Ok u) →
  Forall installable items ∧ loop_result p translate_func cls items w w'.
Proof.
  revert w. induction items as [|item items IH]; intros w; cbn.
  - intros [= <-]. split; [done|apply loop_result_nil].
  - unfold bind at 1.
    destruct (install p translate_func cls item w) as [w1 [[]|e]] eqn:Hi; [|done].
    intros Hrun. pose proof (install_ok_inv _ _ _ _ _ _ _ Hi) as Hx.
    destruct (install_installable p translate_func cls _ w Hx) as (func & Hf & Hi').
    rewrite Hi in Hi'. injection Hi' as ->.
    destruct (IH _ Hrun) as [Hall Hres]. split; [by constructor|].
    destruct item as [name settings]. by eapply loop_result_cons.
Qed.

(** The first entry without [func] ends the loop with [KeyError], in the
    state the entries before it have left. *)
Lemma for_each_install_missing p translate_func cls pre name settings post w :
  Forall installable pre →
  settings !! "func" = None →
  ∃ w', for_each pre (install p translate_func cls) w = (w', Ok tt) ∧
        loop_result p translate_func cls pre w w' ∧
        for_each (pre ++ (name, settings) :: post) (install p translate_func cls) w
          = (w', Raise (KeyError "func")).
Proof.
  intros Hpre Hnone.
  destruct (for_each_install_ok p translate_func cls pre w Hpre) as (w' & Hrun & Hres).
  exists w'. repeat split; try apply Hres; [done|].
  rewrite for_each_app, Hrun. cbn.
  apply bind_raise. by rewrite install_step, Hnone.
Qed.

(** *** The class dictionary after the loop *)

Lemma bind_entries_notin p translate_func cname items d name :
  name ∉ items.*1 →
  bind_entries p translate_func cname items d !! name = d !! name.
Proof.
  unfold bind_entries. revert d.
  induction items as [|[n s] items IH]; intros d Hnot; cbn in *; [done|].
  apply not_elem_of_cons in Hnot as [Hne Hnot].
  rewrite IH by done. unfold bind_entry. cbn.
  destruct (s !! "func"); [|done]. by rewrite lookup_insert_ne.
Qed.

Lemma bind_entries_app p translate_func cname l1 l2 d :
  bind_entries p translate_func cname (l1 ++ l2) d =
    bind_entries p translate_func cname l2 (bind_entries p translate_func cname l1 d).
Proof. unfold bind_entries. apply foldl_app. Qed.

(** The last entry under a name is the one found after the loop. *)
Lemma bind_entries_last p translate_func cname pre name settings func post d :
  settings !! "func" = Some func →
  name ∉ post.*1 →
  bind_entries p translate_func cname (pre ++ (name, settings) :: post) d !! name =
    Some (Method (new_method p translate_func cname name func)).
Proof.
  intros Hf Hnot. rewrite bind_entries_app.
  change ((name, settings) :: post) with ([(name, settings)] ++ post)%list.
  rewrite bind_entries_app, bind_entries_notin by done.
  unfold bind_entries. cbn. rewrite (bind_entry_func _ _ _ _ _ _ _ Hf).
  apply lookup_insert_eq.
Qed.

Lemma bind_entries_in p translate_func cname items d name settings func :
  NoDup items.*1 →
  (name, settings) ∈ items →
  settings !! "func" = Some func →
  bind_entries p translate_func cname items d !! name =
    Some (Method (new_method p translate_func cname name func)).
Proof.
  intros Hnd Hin Hf.
  apply list_elem_of_split in Hin as (pre & post & ->).
  apply bind_entries_last; [done|].
  rewrite fmap_app, fmap_cons in Hnd. cbn in Hnd.
  apply list.NoDup_app in Hnd as (_ & _ & Hnd).
  by apply list.NoDup_cons in Hnd as [Hnd _].
Qed.

(** Binding a catalog lays its entries over the dictionary. *)
Lemma bind_entries_union p translate_func cname items d :
  bind_entries p translate_func cname items d =
    bind_entries p translate_func cname items ∅ ∪ d.
Proof.
  unfold bind_entries. revert d.
  induction items as [|[n s] items IH]; intros d; cbn.
  - by rewrite (left_id_L ∅ (∪)).
  - rewrite IH. rewrite (IH (bind_entry _ _ _ ∅ _)).
    rewrite <-(assoc_L (∪)). f_equal.
    unfold bind_entry. cbn. destruct (s !! "func").
    + by rewrite <-insert_union_l, (left_id_L ∅ (∪)).
    + by rewrite (left_id_L ∅ (∪)).
Qed.

Lemma bind_entries_twice p translate_func cname items d :
  bind_entries p translate_func cname items
    (bind_entries p translate_func cname items d) =
  bind_entries p translate_func cname items d.
Proof.
  rewrite (bind_entries_union _ _ _ _ (bind_entries _ _ _ _ d)).
  rewrite (bind_entries_union _ _ _ _ d).
  by rewrite (assoc_L (∪)), (idemp_L (∪)).
Qed.

(** *** The decorators in terms of the loop *)

Lemma attach_run p translate_func config w :
  match p with
  | SelfOther => attach_binary_magic_methods translate_func config w
  | SelfOnly => attach_unary_magic_methods translate_func config w
  end = (w, Ok (wrapper p translate_func (catalog_of p config w))).
Proof. by destruct p, config. Qed.

Lemma decorate_run p translate_func config cls w :
  decorate p translate_func config cls w =
    wrapper p translate_func (catalog_of p config w) cls w.
Proof. by destruct p, config. Qed.

Lemma wrapper_run p translate_func config cls w :
  wrapper p translate_func config cls w =
    match for_each (config_items config) (install p translate_func cls) w with
    | (w', Ok _) => (w', Ok cls)
    | (w', Raise e) => (w', Raise e)
    end.
Proof. by destruct p. Qed.

Lemma wrapper_ok_inv p translate_func config cls w w' r :
  wrapper p translate_func config cls w = (w', Ok r) →
  r = cls ∧ Forall installable (config_items config) ∧
  loop_result p translate_func cls (config_items config) w w'.
Proof.
  rewrite wrapper_run.
  destruct (for_each _ _ w) as [w1 [[]|e]] eqn:Hrun; [|done].
  intros [= -> ->]. split; [done|]. by eapply for_each_install_inv.
Qed.

Lemma wrapper_ok p translate_func config cls w :
  Forall installable (config_items config) →
  ∃ w', wrapper p translate_func config cls w = (w', Ok cls) ∧
        loop_result p translate_func cls (config_items config) w w'.
Proof.
  intros Hall.
  destruct (for_each_install_ok p translate_func cls _ w Hall) as (w' & Hrun & Hres).
  exists w'. by rewrite wrapper_run, Hrun.
Qed.

(** After a decoration that returned, the name of every entry is bound to
    the function object built from that entry. *)
Lemma decorated_attr p translate_func config cls w w' r name settings :
  config_wf (catalog_of p config w) →
  decorate p translate_func config cls w = (w', Ok r) →
  (name, settings) ∈ config_items (catalog_of p config w) →
  ∃ func, settings !! "func" = Some func ∧
    cls_dict (heap w' cls) !! name =
      Some (Method (new_method p translate_func (cls_name (heap w cls)) name func)).
Proof.
  intros Hwf Hrun Hin. rewrite decorate_run in Hrun.
  apply wrapper_ok_inv in Hrun as (_ & Hall & _ & _ & Hc & _).
  rewrite list.Forall_forall in Hall. destruct (Hall _ Hin) as [[func Hf] _]. cbn in Hf.
  exists func. split; [done|]. rewrite Hc. cbn. by eapply bind_entries_in.
Qed.

Lemma invoke_method w cls name m args tf f :
  cls_dict (heap w cls) !! name = Some (Method m) →
  invoke w cls name args tf f = call m args tf f.
Proof. intros H. unfold invoke. by rewrite H. Qed.

(** C1.  After the type modifier was applied to a class and returned, the
    operator named by any entry of the catalog, invoked on an instance with
    an operand, returns exactly [translate(self, other, func)] for the
    [func] of that entry; a unary operator returns [translate(self, func)]. *)
Theorem installed_operator_calls_translate translate_func config cls w w' r :
  (config_wf (catalog_of SelfOther config w) →
   decorate_binary translate_func config cls w = (w', Ok r) →
   ∀ name settings,
     (name, settings) ∈ config_items (catalog_of SelfOther config w) →
     ∃ func, settings !! "func" = Some func ∧
       ∀ self other,
         invoke w' cls name [self; other] None None =
           translate_func [self; other; func]) ∧
  (config_wf (catalog_of SelfOnly config w) →
   decorate_unary translate_func config cls w = (w', Ok r) →
   ∀ name settings,
     (name, settings) ∈ config_items (catalog_of SelfOnly config w) →
     ∃ func, settings !! "func" = Some func ∧
       ∀ self,
         invoke w' cls name [self] None None = translate_func [self; func]).
Proof.
  split; intros Hwf Hrun name settings Hin.
  - destruct (decorated_attr SelfOther _ _ _ _ _ _ _ _ Hwf Hrun Hin) as (func & Hf & Ha).
    exists func. split; [done|]. intros self other.
    by rewrite (invoke_method _ _ _ _ _ _ _ Ha).
  - destruct (decorated_attr SelfOnly _ _ _ _ _ _ _ _ Hwf Hrun Hin) as (func & Hf & Ha).
    exists func. split; [done|]. intros self.
    by rewrite (invoke_method _ _ _ _ _ _ _ Ha).
Qed.

(** C9.  An installed operator takes two more optional arguments, the
    translation function and the combination function, which default to
    the captured ones: called with a third argument [g] it returns
    [g(self, other, func)], and with a fourth argument [f] as well it
    returns [g(self, other, f)]; a unary operator called with a second
    argument [g] returns [g(self, func)]. *)
Theorem installed_operator_defaults_can_be_overridden translate_func config cls w w' r :
  (config_wf (catalog_of SelfOther config w) →
   decorate_binary translate_func config cls w = (w', Ok r) →
   ∀ name settings,
     (name, settings) ∈ config_items (catalog_of SelfOther config w) →
     ∃ func, settings !! "func" = Some func ∧
       ∀ self other (g : TranslateFuncT Obj) (f : value Obj),
         invoke w' cls name [self; other] (Some g) None = g [self; other; func] ∧
         invoke w' cls name [self; other] (Some g) (Some f) = g [self; other; f]) ∧
  (config_wf (catalog_of SelfOnly config w) →
   decorate_unary translate_func config cls w = (w', Ok r) →
   ∀ name settings,
     (name, settings) ∈ config_items (catalog_of SelfOnly config w) →
     ∃ func, settings !! "func" = Some func ∧
       ∀ self (g : TranslateFuncT Obj) (f : value Obj),
         invoke w' cls name [self] (Some g) None = g [self; func] ∧
         invoke w' cls name [self] (Some g) (Some f) = g [self; f]).
Proof.
  split; intros Hwf Hrun name settings Hin.
  - destruct (decorated_attr SelfOther _ _ _ _ _ _ _ _ Hwf Hrun Hin) as (func & Hf & Ha).
    exists func. split; [done|]. intros self other g f.
    by rewrite !(invoke_method _ _ _ _ _ _ _ Ha).
  - destruct (decorated_attr SelfOnly _ _ _ _ _ _ _ _ Hwf Hrun Hin) as (func & Hf & Ha).
    exists func. split; [done|]. intros self g f.
    by rewrite !(invoke_method _ _ _ _ _ _ _ Ha).
Qed.

(** What the iterations after an entry leave of the method bound at that
    entry. *)
Lemma later_entries_keep_method p translate_func cfg_mid cfg cls pre name settings post
    w w' r :
  config_items cfg_mid = (pre ++ [(name, settings)])%list →
  config_items cfg = (pre ++ (name, settings) :: post)%list →
  name ∉ post.*1 →
  wrapper p translate_func cfg cls w = (w', Ok r) →
  ∃ w_mid func,
    wrapper p translate_func cfg_mid cls w = (w_mid, Ok cls) ∧
    settings !! "func" = Some func ∧
    cls_dict (heap w_mid cls) !! name =
      Some (Method (new_method p translate_func (cls_name (heap w cls)) name func)) ∧
    cls_dict (heap w' cls) !! name = cls_dict (heap w_mid cls) !! name.
Proof.
  intros Emid E Hnot Hrun.
  apply wrapper_ok_inv in Hrun as (_ & Hall & _ & _ & Hc & _).
  rewrite E in Hall, Hc.
  apply list.Forall_app in Hall as [Hpre Hx].
  apply list.Forall_cons in Hx as [Hx _].
  assert (Hmid : Forall installable (config_items cfg_mid)).
  { rewrite Emid. apply list.Forall_app. split; [done|]. by constructor. }
  destruct (wrapper_ok p translate_func cfg_mid cls w Hmid)
    as (w_mid & Hrun_mid & _ & _ & Hcm & _).
  destruct Hx as [[func Hf] _]. cbn in Hf. rewrite Emid in Hcm.
  exists w_mid, func. split; [done|]. split; [done|]. rewrite Hcm, Hc. cbn.
  rewrite (bind_entries_last _ _ _ _ _ _ _ [] _ Hf) by set_solver.
  split; [done|]. by apply bind_entries_last.
Qed.

(** C5.  Each installed method closes over the [func] of its own entry:
    the method bound at one iteration is, after all later iterations, the
    one that iteration bound (the one found when the loop is run up to
    that entry only), and it applies the [func] of its own entry. *)
Theorem installed_method_keeps_its_own_func translate_func cfg_mid cfg cls
    pre name settings post w w' :
  config_items cfg_mid = (pre ++ [(name, settings)])%list →
  config_items cfg = (pre ++ (name, settings) :: post)%list →
  name ∉ post.*1 →
  (wrapper_binary translate_func cfg cls w = (w', Ok cls) →
   ∃ w_mid func,
     wrapper_binary translate_func cfg_mid cls w = (w_mid, Ok cls) ∧
     settings !! "func" = Some func ∧
     cls_dict (heap w' cls) !! name = cls_dict (heap w_mid cls) !! name ∧
     ∀ self other,
       invoke w' cls name [self; other] None None =
         translate_func [self; other; func]) ∧
  (wrapper_unary translate_func cfg cls w = (w', Ok cls) →
   ∃ w_mid func,
     wrapper_unary translate_func cfg_mid cls w = (w_mid, Ok cls) ∧
     settings !! "func" = Some func ∧
     cls_dict (heap w' cls) !! name = cls_dict (heap w_mid cls) !! name ∧
     ∀ self,
       invoke w' cls name [self] None None = translate_func [self; func]).
Proof.
  intros Emid E Hnot. split; intros Hrun.
  - destruct (later_entries_keep_method SelfOther _ _ _ _ _ _ _ _ _ _ _
                Emid E Hnot Hrun) as (w_mid & func & Hmid & Hf & Hm & Hsame).
    exists w_mid, func. repeat split; [done|done|done|]. intros self other.
    rewrite Hm in Hsame. by rewrite (invoke_method _ _ _ _ _ _ _ Hsame).
  - destruct (later_entries_keep_method SelfOnly _ _ _ _ _ _ _ _ _ _ _
                Emid E Hnot Hrun) as (w_mid & func & Hmid & Hf & Hm & Hsame).
    exists w_mid, func. repeat split; [done|done|done|]. intros self.
    rewrite Hm in Hsame. by rewrite (invoke_method _ _ _ _ _ _ _ Hsame).
Qed.

(** A catalog either has only installable entries or a first entry the
    loop body raises at, with an exception that does not depend on the
    state. *)
Lemma first_failing_entry p translate_func cls items :
  Forall installable items ∨
  ∃ pre item post e,
    items = (pre ++ item :: post)%list ∧ Forall installable pre ∧
    ∀ w, install p translate_func cls item w = (w, Raise e).
Proof.
  induction items as [|[name settings] items IH]; [by left|].
  destruct (settings !! "func") as [func|] eqn:Hf.
  - destruct (type_slot name) as [e|] eqn:Hs.
    + right. exists [], (name, settings), items, e. repeat split; [done|].
      intros w. by rewrite install_step, Hf, Hs.
    + assert (Hx : installable (name, settings)) by (split; cbn; eauto).
      destruct IH as [Hall|(pre & item & post & e & -> & Hpre & Hfail)].
      * left. by constructor.
      * right. exists ((name, settings) :: pre), item, post, e.
        repeat split; [by constructor|done].
  - right. exists [], (name, settings), items, (KeyError "func").
    repeat split; [done|]. intros w. by rewrite install_step, Hf.
Qed.

Lemma loop_result_again p translate_func cls items w w1 w2 :
  loop_result p translate_func cls items w w1 →
  loop_result p translate_func cls items w1 w2 →
  same_world w2 w1.
Proof.
  intros (Hb & Hu & Hc & Ho) (Hb2 & Hu2 & Hc2 & Ho2). repeat split; [done|done|].
  intros c. destruct (decide (c = cls)) as [->|Hne]; [|by apply Ho2].
  rewrite Hc2, Hc. cbn. by rewrite bind_entries_twice.
Qed.

Lemma decorate_again p translate_func config cls w :
  ∃ w1 w2 r,
    decorate p translate_func config cls w = (w1, r) ∧
    decorate p translate_func config cls w1 = (w2, r) ∧
    same_world w2 w1.
Proof.
  assert (Hcat : ∀ items w1, loop_result p translate_func cls items w w1 →
            catalog_of p config w1 = catalog_of p config w).
  { intros items w1 (Hb & Hu & _). destruct config, p; cbn; congruence. }
  destruct (first_failing_entry p translate_func cls
              (config_items (catalog_of p config w)))
    as [Hall|(pre & item & post & e & E & Hpre & Hfail)].
  - destruct (wrapper_ok p translate_func (catalog_of p config w) cls w Hall)
      as (w1 & Hrun & Hres).
    destruct (wrapper_ok p translate_func (catalog_of p config w) cls w1 Hall)
      as (w2 & Hrun2 & Hres2).
    exists w1, w2, (Ok cls). rewrite !decorate_run, (Hcat _ _ Hres).
    split; [done|]. split; [done|]. by eapply loop_result_again.
  - destruct (for_each_install_ok p translate_func cls pre w Hpre) as (w1 & Hrun & Hres).
    destruct (for_each_install_ok p translate_func cls pre w1 Hpre) as (w2 & Hrun2 & Hres2).
    exists w1, w2, (Raise e). rewrite !decorate_run, (Hcat _ _ Hres), !wrapper_run, E.
    rewrite !for_each_app, Hrun, Hrun2. cbn.
    rewrite !(bind_raise _ _ _ _ _ (Hfail _)).
    split; [done|]. split; [done|]. by eapply loop_result_again.
Qed.

(** C7.  Applying the same type modifier a second time to the same class
    ends as the first application did and leaves every class and both
    module catalogs as the first application left them: each name is
    rebound to an equal method, and every operator behaves as before. *)
Theorem decorating_twice_is_decorating_once translate_func config cls w :
  (∃ w1 w2 r,
     decorate_binary translate_func config cls w = (w1, r) ∧
     decorate_binary translate_func config cls w1 = (w2, r) ∧
     same_world w2 w1 ∧
     ∀ name args g f, invoke w2 cls name args g f = invoke w1 cls name args g f) ∧
  (∃ w1 w2 r,
     decorate_unary translate_func config cls w = (w1, r) ∧
     decorate_unary translate_func config cls w1 = (w2, r) ∧
     same_world w2 w1 ∧
     ∀ name args g f, invoke w2 cls name args g f = invoke w1 cls name args g f).
Proof.
  split.
  - destruct (decorate_again SelfOther translate_func config cls w)
      as (w1 & w2 & r & Hrun & Hrun2 & Hsame).
    exists w1, w2, r. repeat split; try apply Hsame; [done|done|].
    intros. unfold invoke. destruct Hsame as (_ & _ & Hh). by rewrite Hh.
  - destruct (decorate_again SelfOnly translate_func config cls w)
      as (w1 & w2 & r & Hrun & Hrun2 & Hsame).
    exists w1, w2, r. repeat split; try apply Hsame; [done|done|].
    intros. unfold invoke. destruct Hsame as (_ & _ & Hh). by rewrite Hh.
Qed.

Lemma bind_entries_keeps p translate_func cname items d name :
  is_Some (d !! name) →
  is_Some (bind_entries p translate_func cname items d !! name).
Proof.
  unfold bind_entries. revert d.
  induction items as [|[n s] items IH]; intros d Hd; cbn; [done|].
  apply IH. unfold bind_entry. cbn. destruct (s !! "func"); [|done].
  destruct (decide (n = name)) as [->|Hne].
  - rewrite lookup_insert_eq. eauto.
  - by rewrite lookup_insert_ne.
Qed.

Lemma bind_entries_bound p translate_func cname items d name settings :
  Forall installable items →
  (name, settings) ∈ items →
  is_Some (bind_entries p translate_func cname items d !! name).
Proof.
  intros Hall Hin. apply list_elem_of_split in Hin as (l1 & l2 & ->).
  apply list.Forall_app in Hall as [_ Hx].
  apply list.Forall_cons in Hx as [[[func Hf] _] _]. cbn in Hf.
  rewrite bind_entries_app. unfold bind_entries at 1. cbn.
  rewrite (bind_entry_func _ _ _ _ _ _ _ Hf).
  apply bind_entries_keeps. rewrite lookup_insert_eq. eauto.
Qed.

Lemma wrapper_missing p translate_func cfg_pre cfg cls pre name settings post w :
  config_items cfg_pre = pre →
  config_items cfg = (pre ++ (name, settings) :: post)%list →
  Forall installable pre →
  settings !! "func" = None →
  ∃ w', wrapper p translate_func cfg_pre cls w = (w', Ok cls) ∧
        wrapper p translate_func cfg cls w = (w', Raise (KeyError "func")) ∧
        (∀ n s, (n, s) ∈ pre → is_Some (cls_dict (heap w' cls) !! n)) ∧
        (pre = [] → w' = w).
Proof.
  intros Epre E Hpre Hnone.
  destruct (for_each_install_missing p translate_func cls pre name settings post w
              Hpre Hnone) as (w' & Hrun & Hres & Hfail).
  exists w'. rewrite !wrapper_run, Epre, E, Hrun, Hfail. repeat split.
  - intros n s Hin. destruct Hres as (_ & _ & Hc & _). rewrite Hc. cbn.
    by eapply bind_entries_bound.
  - intros ->. cbn in Hrun. by injection Hrun.
Qed.

(** C4, as the code has it.  When the iteration reaches an entry without
    [func], applying the modifier raises [KeyError('func')]; the entries
    before it have been installed by then and stay installed: the state is
    the one the modifier leaves when applied with only the entries before.
    The class is unmodified when no entry comes before. *)
Theorem missing_func_raises_after_earlier_entries translate_func cfg_pre cfg cls
    pre name settings post w :
  config_items cfg_pre = pre →
  config_items cfg = (pre ++ (name, settings) :: post)%list →
  Forall installable pre →
  settings !! "func" = None →
  (∃ w', wrapper_binary translate_func cfg_pre cls w = (w', Ok cls) ∧
         wrapper_binary translate_func cfg cls w = (w', Raise (KeyError "func")) ∧
         (∀ n s, (n, s) ∈ pre → is_Some (cls_dict (heap w' cls) !! n)) ∧
         (pre = [] → w' = w)) ∧
  (∃ w', wrapper_unary translate_func cfg_pre cls w = (w', Ok cls) ∧
         wrapper_unary translate_func cfg cls w = (w', Raise (KeyError "func")) ∧
         (∀ n s, (n, s) ∈ pre → is_Some (cls_dict (heap w' cls) !! n)) ∧
         (pre = [] → w' = w)).
Proof.
  intros Epre E Hpre Hnone. split.
  - exact (wrapper_missing SelfOther _ _ _ _ _ _ _ _ _ Epre E Hpre Hnone).
  - exact (wrapper_missing SelfOnly _ _ _ _ _ _ _ _ _ Epre E Hpre Hnone).
Qed.

Lemma attach_lazy p translate_func config cls w :
  ∃ wrapper_,
    match p with
    | SelfOther => attach_binary_magic_methods translate_func config w
    | SelfOnly => attach_unary_magic_methods translate_func config w
    end = (w, Ok wrapper_) ∧
    (∀ pre name settings post,
       config_items (catalog_of p config w) = (pre ++ (name, settings) :: post)%list →
       Forall installable pre →
       settings !! "func" = None →
       ∃ w', wrapper_ cls w = (w', Raise (KeyError "func"))) ∧
    (Forall installable (config_items (catalog_of p config w)) →
     ∃ w', wrapper_ cls w = (w', Ok cls)).
Proof.
  exists (wrapper p translate_func (catalog_of p config w)).
  split; [apply attach_run|]. split.
  - intros pre name settings post E Hpre Hnone.
    destruct (wrapper_missing p translate_func
                {| config_items := pre; readonly := false; as_attrs := false |}
                (catalog_of p config w) cls pre name settings post w eq_refl E Hpre Hnone)
      as (w' & _ & Hfail & _).
    by exists w'.
  - intros Hall. destruct (wrapper_ok p translate_func _ cls w Hall) as (w' & Hrun & _).
    by exists w'.
Qed.

(** C3, as the code has it.  Calling either factory validates nothing and
    never raises: for every translation function, whatever its arity, and
    every catalog it returns the modifier and leaves the state as it was.
    An entry without [func] is reported when the modifier is applied to a
    class and the iteration reaches it, as [KeyError('func')]; when every
    entry can be installed, applying the modifier returns, whatever the
    translation function is. *)
Theorem attach_validates_nothing translate_func config cls w :
  (∃ wrapper_,
     attach_binary_magic_methods translate_func config w = (w, Ok wrapper_) ∧
     (∀ pre name settings post,
        config_items (catalog_of SelfOther config w)
          = (pre ++ (name, settings) :: post)%list →
        Forall installable pre →
        settings !! "func" = None →
        ∃ w', wrapper_ cls w = (w', Raise (KeyError "func"))) ∧
     (Forall installable (config_items (catalog_of SelfOther config w)) →
      ∃ w', wrapper_ cls w = (w', Ok cls))) ∧
  (∃ wrapper_,
     attach_unary_magic_methods translate_func config w = (w, Ok wrapper_) ∧
     (∀ pre name settings post,
        config_items (catalog_of SelfOnly config w)
          = (pre ++ (name, settings) :: post)%list →
        Forall installable pre →
        settings !! "func" = None →
        ∃ w', wrapper_ cls w = (w', Raise (KeyError "func"))) ∧
     (Forall installable (config_items (catalog_of SelfOnly config w)) →
      ∃ w', wrapper_ cls w = (w', Ok cls))).
Proof.
  split.
  - exact (attach_lazy SelfOther translate_func config cls w).
  - exact (attach_lazy SelfOnly translate_func config cls w).
Qed.

(** Whether the loop returns or raises, it leaves both module catalogs. *)
Lemma for_each_install_catalogs p translate_func cls items w :
  g_binary_magic_config (for_each items (install p translate_func cls) w).1
    = g_binary_magic_config w ∧
  g_unary_magic_config (for_each items (install p translate_func cls) w).1
    = g_unary_magic_config w.
Proof.
  revert w. induction items as [|[name settings] items IH]; intros w; cbn; [done|].
  unfold bind. rewrite install_step.
  destruct (settings !! "func"); [|done].
  destruct (type_slot name); [done|].
  destruct (IH (bound w cls name
    (Method (new_method p translate_func (cls_name (heap w cls)) name v)))) as [-> ->].
  done.
Qed.

Lemma decorate_catalogs p translate_func config cls w :
  g_binary_magic_config (decorate p translate_func config cls w).1
    = g_binary_magic_config w ∧
  g_unary_magic_config (decorate p translate_func config cls w).1
    = g_unary_magic_config w.
Proof.
  rewrite decorate_run, wrapper_run.
  pose proof (for_each_install_catalogs p translate_func cls
                (config_items (catalog_of p config w)) w) as H.
  by destruct (for_each _ _ w) as [w' [[]|e]].
Qed.

Lemma readonly_refuses (c : Config Obj) m :
  readonly c = true → config_mutate c m = Raise (TypeError "Config is read-only").
Proof. intros H. unfold config_mutate. by rewrite H. Qed.

Lemma run_statement_catalogs s w :
  readonly (g_binary_magic_config w) = true →
  readonly (g_unary_magic_config w) = true →
  g_binary_magic_config (run_statement s w).1 = g_binary_magic_config w ∧
  g_unary_magic_config (run_statement s w).1 = g_unary_magic_config w.
Proof.
  intros Hb Hu. destruct s as [p translate_func config cls|m|m]; cbn.
  - pose proof (decorate_catalogs p translate_func config cls w) as H.
    unfold bind. by destruct (decorate _ _ _ _ w) as [w' [r|e]].
  - by rewrite (readonly_refuses _ m Hb).
  - by rewrite (readonly_refuses _ m Hu).
Qed.

Lemma run_statements_catalogs l w :
  readonly (g_binary_magic_config w) = true →
  readonly (g_unary_magic_config w) = true →
  g_binary_magic_config (run_statements l w) = g_binary_magic_config w ∧
  g_unary_magic_config (run_statements l w) = g_unary_magic_config w.
Proof.
  unfold run_statements. revert w.
  induction l as [|s l IH]; intros w Hb Hu; cbn; [done|].
  destruct (run_statement_catalogs s w Hb Hu) as [Eb Eu].
  destruct (IH (run_statement s w).1) as [-> ->]; by rewrite ?Eb, ?Eu.
Qed.

End Loop.

Section Builtin.

Context {Obj : Type} {NP : Numpy Obj} {TS : TypeSlots}.

(** C2.  In the built-in binary catalog the combination function of every
    reflected operator is that of the direct operator with its two
    arguments swapped: applied to [(a, b)] it gives what the direct one
    gives applied to [(b, a)].  This holds for the seven arithmetic and
    the three bitwise operators. *)
Theorem reflected_func_swaps_arguments :
  Forall (λ op : string * pyfunc Obj,
            ∃ direct reflected : pyfunc Obj,
              config_get binary_magic_config op.1
                = Some {[ "func" := VFunc direct ]} ∧
              config_get binary_magic_config (reflected_name op.1)
                = Some {[ "func" := VFunc reflected ]} ∧
              ∀ a b, reflected [a; b] = direct [b; a])
         (arithmetic_operators ++ bitwise_operators)%list.
Proof.
  repeat constructor; cbn;
    (eexists _, _; split; [reflexivity|split; [reflexivity|done]]).
Qed.

(** C6.  The built-in binary catalog holds exactly the six comparison
    operators, the seven arithmetic operators and their reflected
    counterparts, and the three bitwise operators and their reflected
    counterparts; a direct operator is mapped to its NumPy function and a
    reflected one to that function with the operands swapped.  The built-in
    unary catalog holds exactly negate, plus, absolute value and invert. *)
Theorem builtin_catalog_contents :
  (config_items (binary_magic_config (Obj:=Obj))).*1 =
    ((comparison_operators (Obj:=Obj)).*1 ++
     (arithmetic_operators (Obj:=Obj)).*1 ++
     (reflected_name <$> (arithmetic_operators (Obj:=Obj)).*1) ++
     (bitwise_operators (Obj:=Obj)).*1 ++
     (reflected_name <$> (bitwise_operators (Obj:=Obj)).*1))%list ∧
  NoDup (config_items (binary_magic_config (Obj:=Obj))).*1 ∧
  length (comparison_operators (Obj:=Obj)) = 6 ∧
  length (arithmetic_operators (Obj:=Obj)) = 7 ∧
  length (bitwise_operators (Obj:=Obj)) = 3 ∧
  Forall (λ op : string * pyfunc Obj,
            config_get binary_magic_config op.1 = Some {[ "func" := VFunc op.2 ]})
         (comparison_operators ++ arithmetic_operators ++ bitwise_operators)%list ∧
  Forall (λ op : string * pyfunc Obj,
            ∃ reflected : pyfunc Obj,
              config_get binary_magic_config (reflected_name op.1)
                = Some {[ "func" := VFunc reflected ]} ∧
              ∀ x y, reflected [x; y] = op.2 [y; x])
         (arithmetic_operators ++ bitwise_operators)%list ∧
  config_items unary_magic_config =
    (λ op : string * pyfunc Obj, (op.1, {[ "func" := VFunc op.2 ]})) <$> unary_operators.
Proof.
  split; [reflexivity|]. split; [cbn; apply (bool_decide_unpack _); by vm_compute|].
  do 3 (split; [reflexivity|]).
  split; [repeat constructor|]. split; [|reflexivity].
  repeat constructor; cbn; (eexists; split; [reflexivity|done]).
Qed.

(** C8.  The two built-in catalogs are read-only: every attempt to set,
    delete, pop, update or clear is refused with an exception, and after
    any sequence of decorations and mutation attempts, started from the
    module as imported, both module catalogs are the ones built at
    import. *)
Theorem builtin_catalogs_are_read_only :
  (∀ m : mutation Obj, raises (config_mutate binary_magic_config m)) ∧
  (∀ m : mutation Obj, raises (config_mutate unary_magic_config m)) ∧
  (∀ (classes : cls_ref → pyclass Obj) (l : list (statement Obj)),
     g_binary_magic_config (run_statements l (module_init classes))
       = binary_magic_config ∧
     g_unary_magic_config (run_statements l (module_init classes))
       = unary_magic_config) ∧
  (∀ (w : world Obj) (m : mutation Obj),
     g_binary_magic_config w = binary_magic_config →
     g_unary_magic_config w = unary_magic_config →
     raises (run_statement (MutateBinary m) w).2 ∧
     raises (run_statement (MutateUnary m) w).2).
Proof.
  split; [intros m; by eexists|]. split; [intros m; by eexists|]. split.
  - intros classes l.
    by destruct (run_statements_catalogs l (module_init classes)) as [-> ->].
  - intros w m Hb Hu. cbn. rewrite Hb, Hu. split; by eexists.
Qed.

End Builtin.

(** *** The properties on the concrete scenario *)

Import Scenario.

Lemma combine_catalog_wf : config_wf combine_catalog.
Proof. apply (bool_decide_unpack _). by vm_compute. Qed.

Lemma negate_catalog_wf : config_wf negate_catalog.
Proof. apply (bool_decide_unpack _). by vm_compute. Qed.

(** [Wrapped(3).combine(Wrapped(4))] is [Wrapped(7)], and negating
    [Wrapped(5)] gives [Wrapped(-5)]. *)
Example wrapped_combine :
  invoke (after (decorate_binary translate_pair (Some combine_catalog) Wrapped) world0)
         Wrapped "combine" [VObj 3%Z; VObj 4%Z] None None = Ok (VObj 7%Z).
Proof. reflexivity. Qed.

Example wrapped_negate :
  invoke (after (decorate_unary translate_one (Some negate_catalog) Wrapped) world0)
         Wrapped "__neg__" [VObj 5%Z] None None = Ok (VObj (-5)%Z).
Proof. reflexivity. Qed.

(** With the built-in catalog, [Wrapped(3) - Wrapped(4)] and the reflected
    subtraction. *)
Example wrapped_builtin_sub :
  invoke (after (decorate_binary translate_pair None Wrapped) world0)
         Wrapped "__sub__" [VObj 3%Z; VObj 4%Z] None None = Ok (VObj (-1)%Z) ∧
  invoke (after (decorate_binary translate_pair None Wrapped) world0)
         Wrapped "__rsub__" [VObj 3%Z; VObj 4%Z] None None = Ok (VObj 1%Z).
Proof. split; reflexivity. Qed.

Lemma installed_operator_calls_translate_witness :
  (config_wf combine_catalog ∧
   ∃ func, dict_func (two_args Z.add) !! "func" = Some func ∧
     ∀ self other,
       invoke (after (decorate_binary translate_pair (Some combine_catalog) Wrapped) world0)
              Wrapped "combine" [self; other] None None
         = translate_pair [self; other; func]) ∧
  (config_wf negate_catalog ∧
   ∃ func, dict_func (one_arg Z.opp) !! "func" = Some func ∧
     ∀ self,
       invoke (after (decorate_unary translate_one (Some negate_catalog) Wrapped) world0)
              Wrapped "__neg__" [self] None None
         = translate_one [self; func]).
Proof.
  split; (split; [first [exact combine_catalog_wf|exact negate_catalog_wf]|]).
  - refine (proj1 (installed_operator_calls_translate translate_pair (Some combine_catalog)
                     Wrapped world0 _ Wrapped) combine_catalog_wf _ "combine" _ _).
    + reflexivity.
    + cbn. set_solver.
  - refine (proj2 (installed_operator_calls_translate translate_one (Some negate_catalog)
                     Wrapped world0 _ Wrapped) negate_catalog_wf _ "__neg__" _ _).
    + reflexivity.
    + cbn. set_solver.
Defined.

Lemma installed_operator_defaults_can_be_overridden_witness :
  (config_wf combine_catalog ∧
   ∃ func, dict_func (two_args Z.add) !! "func" = Some func ∧
     ∀ self other (g : TranslateFuncT Z) (f : value Z),
       invoke (after (decorate_binary translate_pair (Some combine_catalog) Wrapped) world0)
              Wrapped "combine" [self; other] (Some g) None = g [self; other; func] ∧
       invoke (after (decorate_binary translate_pair (Some combine_catalog) Wrapped) world0)
              Wrapped "combine" [self; other] (Some g) (Some f) = g [self; other; f]) ∧
  (config_wf negate_catalog ∧
   ∃ func, dict_func (one_arg Z.opp) !! "func" = Some func ∧
     ∀ self (g : TranslateFuncT Z) (f : value Z),
       invoke (after (decorate_unary translate_one (Some negate_catalog) Wrapped) world0)
              Wrapped "__neg__" [self] (Some g) None = g [self; func] ∧
       invoke (after (decorate_unary translate_one (Some negate_catalog) Wrapped) world0)
              Wrapped "__neg__" [self] (Some g) (Some f) = g [self; f]).
Proof.
  split; (split; [first [exact combine_catalog_wf|exact negate_catalog_wf]|]).
  - refine (proj1 (installed_operator_defaults_can_be_overridden translate_pair
                     (Some combine_catalog) Wrapped world0 _ Wrapped)
                  combine_catalog_wf _ "combine" _ _).
    + reflexivity.
    + cbn. set_solver.
  - refine (proj2 (installed_operator_defaults_can_be_overridden translate_one
                     (Some negate_catalog) Wrapped world0 _ Wrapped)
                  negate_catalog_wf _ "__neg__" _ _).
    + reflexivity.
    + cbn. set_solver.
Defined.

(** An explicit third argument replaces the captured translation function:
    [Wrapped(3).combine(Wrapped(4), keep_left)] is [Wrapped(3)]. *)
Example wrapped_combine_keep_left :
  invoke (after (decorate_binary translate_pair (Some combine_catalog) Wrapped) world0)
         Wrapped "combine" [VObj 3%Z; VObj 4%Z] (Some keep_left) None = Ok (VObj 3%Z).
Proof. reflexivity. Qed.

Lemma installed_method_keeps_its_own_func_witness :
  ("__add__" ∉ [("__sub__", dict_func (two_args Z.sub))].*1) ∧
  (∃ w_mid func,
     wrapper_binary translate_pair (catalog [("__add__", dict_func (two_args Z.add))])
       Wrapped world0 = (w_mid, Ok Wrapped) ∧
     dict_func (two_args Z.add) !! "func" = Some func ∧
     cls_dict (heap (after (wrapper_binary translate_pair add_sub_catalog Wrapped) world0)
                    Wrapped) !! "__add__" =
     cls_dict (heap w_mid Wrapped) !! "__add__" ∧
     ∀ self other,
       invoke (after (wrapper_binary translate_pair add_sub_catalog Wrapped) world0)
              Wrapped "__add__" [self; other] None None
         = translate_pair [self; other; func]).
Proof.
  assert (Hnot : "__add__" ∉ [("__sub__", dict_func (two_args Z.sub))].*1)
    by (apply (bool_decide_unpack _); by vm_compute).
  split; [exact Hnot|].
  refine (proj1 (installed_method_keeps_its_own_func translate_pair
                   (catalog [("__add__", dict_func (two_args Z.add))]) add_sub_catalog
                   Wrapped [] "__add__" _ [("__sub__", dict_func (two_args Z.sub))]
                   world0 _ _ _ Hnot) _); reflexivity.
Defined.

(** After both entries were installed, [__add__] adds and [__sub__]
    subtracts. *)
Example wrapped_add_then_sub :
  invoke (after (wrapper_binary translate_pair add_sub_catalog Wrapped) world0)
         Wrapped "__add__" [VObj 3%Z; VObj 4%Z] None None = Ok (VObj 7%Z) ∧
  invoke (after (wrapper_binary translate_pair add_sub_catalog Wrapped) world0)
         Wrapped "__sub__" [VObj 3%Z; VObj 4%Z] None None = Ok (VObj (-1)%Z).
Proof. split; reflexivity. Qed.

(** Decorating [Wrapped] a second time binds [__add__] to an equal
    method. *)
Example wrapped_decorated_twice :
  cls_dict (heap (after (decorate_binary translate_pair (Some add_sub_catalog) Wrapped)
                    (after (decorate_binary translate_pair (Some add_sub_catalog) Wrapped)
                       world0)) Wrapped) !! "__add__" =
  cls_dict (heap (after (decorate_binary translate_pair (Some add_sub_catalog) Wrapped)
                    world0) Wrapped) !! "__add__".
Proof. reflexivity. Qed.

(** C4 fails on the code: with a catalog whose second entry has no [func],
    applying the modifier raises, and [__add__], which the class did not
    have, is installed. *)
Lemma broken_catalog_leaves_add_installed :
  (decorate_binary translate_pair (Some broken_catalog) Wrapped world0).2
    = Raise (KeyError "func") ∧
  cls_dict (heap world0 Wrapped) !! "__add__" = None ∧
  cls_dict (heap (after (decorate_binary translate_pair (Some broken_catalog) Wrapped) world0)
                 Wrapped) !! "__add__"
    = Some (Method (new_method SelfOther translate_pair "Wrapped" "__add__"
                      (VFunc (two_args Z.add)))).
Proof. repeat split; reflexivity. Qed.

Lemma add_entry_installable :
  Forall installable [("__add__", dict_func (two_args Z.add))].
Proof.
  constructor; [|constructor]. split; [|reflexivity]. cbn.
  unfold dict_func. rewrite lookup_singleton_eq. eauto.
Qed.

Lemma missing_func_raises_after_earlier_entries_witness :
  Forall installable [("__add__", dict_func (two_args Z.add))] ∧
  (∅ : gmap string (value Z)) !! "func" = None ∧
  ∃ w',
    wrapper_binary translate_pair (catalog [("__add__", dict_func (two_args Z.add))])
      Wrapped world0 = (w', Ok Wrapped) ∧
    wrapper_binary translate_pair broken_catalog Wrapped world0
      = (w', Raise (KeyError "func")) ∧
    (∀ n s, (n, s) ∈ [("__add__", dict_func (two_args Z.add))] →
       is_Some (cls_dict (heap w' Wrapped) !! n)) ∧
    ([("__add__", dict_func (two_args Z.add))] = [] → w' = world0).
Proof.
  split; [exact add_entry_installable|]. split; [reflexivity|].
  exact (proj1 (missing_func_raises_after_earlier_entries translate_pair
                  (catalog [("__add__", dict_func (two_args Z.add))]) broken_catalog
                  Wrapped [("__add__", dict_func (two_args Z.add))] "__sub__" ∅ []
                  world0 eq_refl eq_refl add_entry_installable eq_refl)).
Defined.

(** C3 fails on the code: called with a translation function of the wrong
    arity and a catalog with an entry without [func], the factory returns
    the modifier. *)
Lemma attach_accepts_broken_catalog :
  assoc_get "__sub__" (config_items broken_catalog) = Some ∅ ∧
  (∀ self other func, raises (translate_one [self; other; func])) ∧
  attach_binary_magic_methods translate_one (Some broken_catalog) world0
    = (world0, Ok (wrapper_binary translate_one broken_catalog)) ∧
  ¬ raises (attach_binary_magic_methods translate_one (Some broken_catalog) world0).2.
Proof.
  split; [reflexivity|].
  split; [intros self other func; destruct self, other, func; by eexists|].
  split; [reflexivity|].
  intros [e He]. discriminate He.
Qed.

Lemma attach_validates_nothing_witness :
  ∃ wrapper_,
    attach_binary_magic_methods translate_one (Some broken_catalog) world0
      = (world0, Ok wrapper_) ∧
    (∃ w', wrapper_ Wrapped world0 = (w', Raise (KeyError "func"))) ∧
  ∃ wrapper_,
    attach_binary_magic_methods translate_one (Some add_sub_catalog) world0
      = (world0, Ok wrapper_) ∧
    (∃ w', wrapper_ Wrapped world0 = (w', Ok Wrapped)).
Proof.
  destruct (proj1 (attach_validates_nothing translate_one (Some broken_catalog)
                     Wrapped world0)) as (wr & Hrun & Hmiss & _).
  exists wr. split; [exact Hrun|]. split.
  { exact (Hmiss [("__add__", dict_func (two_args Z.add))] "__sub__" ∅ []
             eq_refl add_entry_installable eq_refl). }
  destruct (proj1 (attach_validates_nothing translate_one (Some add_sub_catalog)
                     Wrapped world0)) as (wr2 & Hrun2 & _ & Hok).
  exists wr2. split; [exact Hrun2|]. apply Hok.
  repeat constructor; cbn; unfold dict_func; rewrite lookup_singleton_eq; eauto.
Defined.

(** A translation function of the wrong arity is found out when the
    operator is invoked. *)
Example wrong_arity_raises_at_invocation :
  invoke (after (decorate_binary translate_one (Some add_sub_catalog) Wrapped) world0)
         Wrapped "__add__" [VObj 3%Z; VObj 4%Z] None None
    = Raise (TypeError "translate() takes 2 positional arguments").
Proof. reflexivity. Qed.

Lemma builtin_catalogs_are_read_only_witness :
  g_binary_magic_config world0 = binary_magic_config ∧
  g_unary_magic_config world0 = unary_magic_config ∧
  raises (run_statement (MutateBinary Clear) world0).2 ∧
  raises (run_statement (MutateUnary Clear) world0).2.
Proof.
  split; [reflexivity|]. split; [reflexivity|].
  exact (proj2 (proj2 (proj2 builtin_catalogs_are_read_only)) world0 Clear eq_refl eq_refl).
Defined.

End MagicProofs.

(** ** Properties of the image helpers *)

Module ImageProofs.

Import Image.

Local Open Scope nat_scope.

Lemma broadcastable_same n : broadcastable n n = true.
Proof. unfold broadcastable. by rewrite bool_decide_eq_true_2. Qed.

Lemma src_index_lt n i : i < n → src_index n i = i.
Proof. unfold src_index. intros Hi. case_bool_decide; lia. Qed.

(** Assigning a block of exactly the shape of the selected region. *)
Lemma setitem_block c r0 r1 c0 c1 src H W D :
  shape c = (H, W, D) →
  shape src = (r1 - r0, c1 - c0, D) →
  r0 ≤ r1 ≤ H →
  c0 ≤ c1 ≤ W →
  ∃ c', setitem c r0 r1 c0 c1 src = Ok c' ∧
        shape c' = shape c ∧
        dtype_of c' = dtype_of c ∧
        (∀ i j k, r0 ≤ i < r1 → c0 ≤ j < c1 → k < D →
           item c' i j k = cast (dtype_of c) (item src (i - r0) (j - c0) k)) ∧
        (∀ i j k, ¬ (r0 ≤ i < r1 ∧ c0 ≤ j < c1) → item c' i j k = item c i j k).
Proof.
  intros Hc Hs Hr Hcol. unfold setitem. rewrite Hc, Hs.
  rewrite !Nat.min_l by lia. rewrite !broadcastable_same. cbn.
  eexists. split; [reflexivity|]. cbn. do 2 (split; [done|]). split.
  - intros i j k Hi Hj Hk.
    rewrite !bool_decide_eq_true_2 by done. cbn.
    by rewrite !src_index_lt by lia.
  - intros i j k Hout.
    destruct (bool_decide (r0 ≤ i < r1)) eqn:Ei;
      destruct (bool_decide (c0 ≤ j < c1)) eqn:Ej; cbn; try done.
    apply bool_decide_eq_true_1 in Ei, Ej. tauto.
Qed.

Lemma hstack_spec a b h1 w1 h2 w2 d :
  shape a = (h1, w1, d) →
  shape b = (h2, w2, d) →
  ∃ c, hstack_image_arrays a b = Ok c ∧
       shape c = (h1 `max` h2, w1 + w2, d) ∧
       dtype_of c = uint8 ∧
       (∀ i j k, i < h1 → j < w1 → k < d →
          item c i j k = cast uint8 (item a i j k)) ∧
       (∀ i j k, i < h2 → j < w2 → k < d →
          item c i (w1 + j) k = cast uint8 (item b i j k)) ∧
       (∀ i j k, i < h1 `max` h2 → j < w1 + w2 → k < d →
          ¬ (i < h1 ∧ j < w1) → ¬ (i < h2 ∧ w1 ≤ j) →
          item c i j k = 255%Z).
Proof.
  intros Ha Hb. unfold hstack_image_arrays. rewrite Ha, Hb.
  set (c0 := np_full (h1 `max` h2, w1 + w2, d) 255 uint8).
  destruct (setitem_block c0 0 h1 0 w1 a (h1 `max` h2) (w1 + w2) d)
    as (c1 & E1 & S1 & T1 & In1 & Out1);
    [done|by rewrite Ha, !Nat.sub_0_r|lia|lia|].
  destruct (setitem_block c1 0 h2 w1 (w1 + w2) b (h1 `max` h2) (w1 + w2) d)
    as (c2 & E2 & S2 & T2 & In2 & Out2);
    [by rewrite S1|rewrite Hb; f_equal; f_equal; lia|lia|lia|].
  exists c2. rewrite E1. cbn. rewrite E2. cbn.
  rewrite T1 in T2, In2. cbn in In1, In2, T2.
  repeat split; [by rewrite S2, S1|done|..].
  - intros i j k Hi Hj Hk. rewrite Out2 by lia. rewrite In1 by lia.
    by rewrite !Nat.sub_0_r.
  - intros i j k Hi Hj Hk. rewrite In2 by lia. f_equal. f_equal; lia.
  - intros i j k Hi Hj Hk Hna Hnb. rewrite Out2 by lia. by rewrite Out1 by lia.
Qed.

Lemma vstack_spec a b h1 w1 h2 w2 d :
  shape a = (h1, w1, d) →
  shape b = (h2, w2, d) →
  ∃ c, vstack_image_arrays a b = Ok c ∧
       shape c = (h1 + h2, w1 `max` w2, d) ∧
       dtype_of c = uint8 ∧
       (∀ i j k, i < h1 → j < w1 → k < d →
          item c i j k = cast uint8 (item a i j k)) ∧
       (∀ i j k, i < h2 → j < w2 → k < d →
          item c (h1 + i) j k = cast uint8 (item b i j k)) ∧
       (∀ i j k, i < h1 + h2 → j < w1 `max` w2 → k < d →
          ¬ (i < h1 ∧ j < w1) → ¬ (h1 ≤ i ∧ j < w2) →
          item c i j k = 255%Z).
Proof.
  intros Ha Hb. unfold vstack_image_arrays. rewrite Ha, Hb.
  set (c0 := np_full (h1 + h2, w1 `max` w2, d) 255 uint8).
  destruct (setitem_block c0 0 h1 0 w1 a (h1 + h2) (w1 `max` w2) d)
    as (c1 & E1 & S1 & T1 & In1 & Out1);
    [done|by rewrite Ha, !Nat.sub_0_r|lia|lia|].
  destruct (setitem_block c1 h1 (h1 + h2) 0 w2 b (h1 + h2) (w1 `max` w2) d)
    as (c2 & E2 & S2 & T2 & In2 & Out2);
    [by rewrite S1|rewrite Hb; f_equal; f_equal; lia|lia|lia|].
  exists c2. rewrite E1. cbn. rewrite E2. cbn.
  rewrite T1 in T2, In2. cbn in In1, In2, T2.
  repeat split; [by rewrite S2, S1|done|..].
  - intros i j k Hi Hj Hk. rewrite Out2 by lia. rewrite In1 by lia.
    by rewrite !Nat.sub_0_r.
  - intros i j k Hi Hj Hk. rewrite In2 by lia. f_equal.
    rewrite Nat.sub_0_r. f_equal. lia.
  - intros i j k Hi Hj Hk Hna Hnb. rewrite Out2 by lia. by rewrite Out1 by lia.
Qed.

(** C10, as the code has it.  For [a] of shape [(h1, w1, d)] and [b] of
    shape [(h2, w2, d)], [hstack_image_arrays] returns an unsigned 8-bit
    array of shape [(max(h1, h2), w1 + w2, d)] whose top-left [h1] by [w1]
    block holds the cells of [a] converted to unsigned 8-bit, whose columns
    [w1] to [w1 + w2 - 1] hold in their top [h2] rows the cells of [b]
    converted likewise, and whose other cells are 255;
    [vstack_image_arrays] does the same with [b] below [a] and shape
    [(h1 + h2, max(w1, w2), d)].  The conversion keeps a cell's value
    modulo 256, so the blocks equal [a] and [b] when their cells lie
    within 0..255. *)
Theorem stacked_images_hold_converted_cells a b h1 w1 h2 w2 d :
  shape a = (h1, w1, d) →
  shape b = (h2, w2, d) →
  (∃ c, hstack_image_arrays a b = Ok c ∧
        shape c = (h1 `max` h2, w1 + w2, d) ∧
        dtype_of c = uint8 ∧
        (∀ i j k, i < h1 → j < w1 → k < d →
           item c i j k = (item a i j k `mod` 256)%Z) ∧
        (∀ i j k, i < h2 → j < w2 → k < d →
           item c i (w1 + j) k = (item b i j k `mod` 256)%Z) ∧
        (∀ i j k, i < h1 `max` h2 → j < w1 + w2 → k < d →
           ¬ (i < h1 ∧ j < w1) → ¬ (i < h2 ∧ w1 ≤ j) →
           item c i j k = 255%Z)) ∧
  (∃ c, vstack_image_arrays a b = Ok c ∧
        shape c = (h1 + h2, w1 `max` w2, d) ∧
        dtype_of c = uint8 ∧
        (∀ i j k, i < h1 → j < w1 → k < d →
           item c i j k = (item a i j k `mod` 256)%Z) ∧
        (∀ i j k, i < h2 → j < w2 → k < d →
           item c (h1 + i) j k = (item b i j k `mod` 256)%Z) ∧
        (∀ i j k, i < h1 + h2 → j < w1 `max` w2 → k < d →
           ¬ (i < h1 ∧ j < w1) → ¬ (h1 ≤ i ∧ j < w2) →
           item c i j k = 255%Z)) ∧
  (∀ z, (0 ≤ z < 256)%Z → (z `mod` 256)%Z = z).
Proof.
  intros Ha Hb. split; [exact (hstack_spec a b h1 w1 h2 w2 d Ha Hb)|].
  split; [exact (vstack_spec a b h1 w1 h2 w2 d Ha Hb)|].
  intros z Hz. by apply Z.mod_small.
Qed.

Lemma stacked_images_hold_converted_cells_witness :
  shape pixel16 = (1, 1, 1) ∧
  shape pixel8 = (1, 1, 1) ∧
  (∃ c, hstack_image_arrays pixel16 pixel8 = Ok c ∧
        shape c = (1, 2, 1) ∧
        item c 0 0 0 = (item pixel16 0 0 0 `mod` 256)%Z ∧
        item c 0 1 0 = (item pixel8 0 0 0 `mod` 256)%Z) ∧
  (∃ c, vstack_image_arrays pixel16 pixel8 = Ok c ∧
        shape c = (2, 1, 1) ∧
        item c 0 0 0 = (item pixel16 0 0 0 `mod` 256)%Z ∧
        item c 1 0 0 = (item pixel8 0 0 0 `mod` 256)%Z).
Proof.
  split; [reflexivity|]. split; [reflexivity|].
  destruct (stacked_images_hold_converted_cells pixel16 pixel8 1 1 1 1 1 eq_refl eq_refl)
    as ((c & Hc & Hs & _ & Ha & Hb & _) & (c' & Hc' & Hs' & _ & Ha' & Hb' & _) & _).
  split.
  - exists c. split; [exact Hc|]. split; [exact Hs|].
    split; [apply Ha; lia|apply (Hb 0 0 0); lia].
  - exists c'. split; [exact Hc'|]. split; [exact Hs'|].
    split; [apply Ha'; lia|apply (Hb' 0 0 0); lia].
Defined.

(** C10 fails on the code: the pixel of a 16-bit image that holds 300 is 44
    in the stacked image. *)
Lemma stacked_16_bit_pixel_is_truncated :
  shape pixel16 = (1, 1, 1) ∧
  shape pixel8 = (1, 1, 1) ∧
  item pixel16 0 0 0 = 300%Z ∧
  (∃ c, hstack_image_arrays pixel16 pixel8 = Ok c ∧
        item c 0 0 0 = 44%Z ∧ item c 0 0 0 ≠ item pixel16 0 0 0) ∧
  (∃ c, vstack_image_arrays pixel16 pixel8 = Ok c ∧
        item c 0 0 0 = 44%Z ∧ item c 0 0 0 ≠ item pixel16 0 0 0).
Proof.
  do 3 (split; [reflexivity|]).
  split; (eexists; split; [reflexivity|]; split; [reflexivity|];
          intros H; vm_compute in H; discriminate H).
Qed.

(** Stacking two 8-bit pixels side by side keeps both. *)
Example hstack_two_pixels :
  ∃ c, hstack_image_arrays pixel8 pixel8 = Ok c ∧
       shape c = (1, 2, 1) ∧ dtype_of c = uint8 ∧
       item c 0 0 0 = 7%Z ∧ item c 0 1 0 = 7%Z.
Proof. eexists. repeat split; reflexivity. Qed.

End ImageProofs.

(** ** Further properties of the decorators *)

Module MagicMore.

Import Magic MagicProofs.

Section Loop.

Context {Obj : Type} {TS : TypeSlots}.

Implicit Types (w : world Obj) (cls : cls_ref) (p : params).
Implicit Types (translate_func : TranslateFuncT Obj).
Implicit Types (items : list (string * settings_t Obj)).
Implicit Types (d : gmap string (attr Obj)).

(** Whether the loop returns or raises, the state it leaves is the one of
    the entries it got through, a prefix of the catalog. *)
Lemma for_each_install_prefix p translate_func cls items w :
  ∃ pre post,
    items = (pre ++ post)%list ∧
    loop_result p translate_func cls pre w
      (for_each items (install p translate_func cls) w).1.
Proof.
  destruct (first_failing_entry p translate_func cls items)
    as [Hall|(pre & item & post & e & -> & Hpre & Hfail)].
  - destruct (for_each_install_ok p translate_func cls items w Hall) as (w' & Hrun & Hres).
    exists items, []. rewrite Hrun, app_nil_r. done.
  - destruct (for_each_install_ok p translate_func cls pre w Hpre) as (w' & Hrun & Hres).
    exists pre, (item :: post). split; [done|].
    rewrite for_each_app, Hrun. cbn. by rewrite (bind_raise _ _ _ _ _ (Hfail _)).
Qed.

Lemma decorate_prefix p translate_func config cls w :
  ∃ pre post,
    config_items (catalog_of p config w) = (pre ++ post)%list ∧
    loop_result p translate_func cls pre w (decorate p translate_func config cls w).1.
Proof.
  destruct (for_each_install_prefix p translate_func cls
              (config_items (catalog_of p config w)) w) as (pre & post & E & Hres).
  exists pre, post. split; [done|]. rewrite decorate_run, wrapper_run.
  by destruct (for_each _ _ w) as [w' [[]|e]].
Qed.

Lemma bind_entries_dom p translate_func cname items d :
  Forall installable items →
  dom (bind_entries p translate_func cname items d) = dom d ∪ list_to_set items.*1.
Proof.
  unfold bind_entries. intros Hall. revert d.
  induction Hall as [|[n s] items [[func Hf] _] _ IH]; intros d; cbn in *.
  - set_solver.
  - rewrite IH, (bind_entry_func _ _ _ _ _ _ _ Hf), dom_insert_L. set_solver.
Qed.

(** X1.  After a decoration that returned, the name of every catalog entry
    is bound, whatever the class held under it before, to a function whose
    [__name__] is the catalog key and whose [__qualname__] is the name of
    the class, a dot and the key. *)
Theorem installed_method_is_named_after_its_key p translate_func config cls w w' r
    name settings :
  config_wf (catalog_of p config w) →
  decorate p translate_func config cls w = (w', Ok r) →
  (name, settings) ∈ config_items (catalog_of p config w) →
  ∃ m, cls_dict (heap w' cls) !! name = Some (Method m) ∧
       fn_name m = name ∧
       fn_qualname m = cls_name (heap w' cls) ++ "." ++ name ∧
       fn_params m = p.
Proof.
  intros Hwf Hrun Hin.
  destruct (decorated_attr p _ _ _ _ _ _ _ _ Hwf Hrun Hin) as (func & Hf & Ha).
  rewrite decorate_run in Hrun.
  apply wrapper_ok_inv in Hrun as (_ & _ & _ & _ & Hc & _).
  eexists. split; [exact Ha|]. cbn. by rewrite Hc.
Qed.

(** X2.  A decoration, whether it returns or raises, changes no other
    class, leaves the name of the decorated class and both module
    catalogs, and leaves every attribute of the class whose name is not a
    key of the catalog. *)
Theorem decoration_touches_only_catalog_names p translate_func config cls w :
  (∀ c, c ≠ cls → heap (decorate p translate_func config cls w).1 c = heap w c) ∧
  cls_name (heap (decorate p translate_func config cls w).1 cls) = cls_name (heap w cls) ∧
  g_binary_magic_config (decorate p translate_func config cls w).1
    = g_binary_magic_config w ∧
  g_unary_magic_config (decorate p translate_func config cls w).1
    = g_unary_magic_config w ∧
  (∀ name, name ∉ (config_items (catalog_of p config w)).*1 →
     cls_dict (heap (decorate p translate_func config cls w).1 cls) !! name
       = cls_dict (heap w cls) !! name).
Proof.
  destruct (decorate_prefix p translate_func config cls w)
    as (pre & post & E & Hb & Hu & Hc & Ho).
  repeat split; [done| |done|done|].
  - by rewrite Hc.
  - intros name Hnot. rewrite Hc. cbn. apply bind_entries_notin.
    rewrite E, fmap_app in Hnot. set_solver.
Qed.

(** X3.  After a decoration that returned, the attribute names of the
    class are those it had before together with the keys of the catalog. *)
Theorem decoration_adds_exactly_the_catalog_names p translate_func config cls w w' r :
  decorate p translate_func config cls w = (w', Ok r) →
  dom (cls_dict (heap w' cls)) =
    dom (cls_dict (heap w cls)) ∪ list_to_set (config_items (catalog_of p config w)).*1.
Proof.
  rewrite decorate_run. intros Hrun.
  apply wrapper_ok_inv in Hrun as (_ & Hall & _ & _ & Hc & _).
  rewrite Hc. cbn. by apply bind_entries_dom.
Qed.

(** X4.  Applying the modifier returns exactly when every entry of the
    catalog has a [func] and a name the host lets be bound, and what it
    returns is the class it was given. *)
Theorem modifier_returns_iff_all_installable p translate_func config cls w :
  (Forall installable (config_items config) ↔
   ∃ w', wrapper p translate_func config cls w = (w', Ok cls)) ∧
  (∀ w' r, wrapper p translate_func config cls w = (w', Ok r) → r = cls).
Proof.
  split; [split|].
  - intros Hall. destruct (wrapper_ok p translate_func config cls w Hall) as (w' & H & _).
    by exists w'.
  - intros (w' & Hrun). by apply wrapper_ok_inv in Hrun as (_ & Hall & _).
  - intros w' r Hrun. by apply wrapper_ok_inv in Hrun as (-> & _).
Qed.

(** X5.  When the first entry the loop cannot get through has a [func] but
    a name the host refuses to bind, applying the modifier raises the
    host's exception, in the state the entries before it have left. *)
Theorem refused_name_raises_after_earlier_entries p translate_func cfg_pre cfg cls
    pre name settings post e w :
  config_items cfg_pre = pre →
  config_items cfg = (pre ++ (name, settings) :: post)%list →
  Forall installable pre →
  is_Some (settings !! "func") →
  type_slot name = Some e →
  ∃ w', wrapper p translate_func cfg_pre cls w = (w', Ok cls) ∧
        wrapper p translate_func cfg cls w = (w', Raise e).
Proof.
  intros Epre E Hpre [func Hf] Hs.
  destruct (for_each_install_ok p translate_func cls pre w Hpre) as (w' & Hrun & _).
  exists w'. rewrite !wrapper_run, Epre, E, for_each_app, Hrun. split; [done|].
  cbn. rewrite (bind_raise _ _ _ w' e); [done|]. by rewrite install_step, Hf, Hs.
Qed.

Lemma bind_entries_commute p1 t1 p2 t2 cname items1 items2 d :
  Forall installable items1 →
  Forall installable items2 →
  (∀ n, n ∈ items1.*1 → n ∉ items2.*1) →
  bind_entries p1 t1 cname items1 (bind_entries p2 t2 cname items2 d) =
  bind_entries p2 t2 cname items2 (bind_entries p1 t1 cname items1 d).
Proof.
  intros H1 H2 Hdisj.
  rewrite (bind_entries_union p1 t1 _ _ (bind_entries _ _ _ _ d)).
  rewrite (bind_entries_union p2 t2 _ _ (bind_entries _ _ _ _ d)).
  rewrite (bind_entries_union p1 t1 _ _ d), (bind_entries_union p2 t2 _ _ d).
  rewrite !(assoc_L (∪)). f_equal. apply map_union_comm.
  apply map_disjoint_dom. rewrite !bind_entries_dom by done.
  rewrite dom_empty_L. set_solver.
Qed.

Lemma decorate_ok p translate_func config cls w :
  Forall installable (config_items (catalog_of p config w)) →
  ∃ w', decorate p translate_func config cls w = (w', Ok cls) ∧
        loop_result p translate_func cls (config_items (catalog_of p config w)) w w'.
Proof.
  intros Hall. rewrite decorate_run. by apply wrapper_ok.
Qed.

Lemma loop_result_catalog_of p translate_func cls items w w' q config :
  loop_result p translate_func cls items w w' →
  catalog_of q config w' = catalog_of q config w.
Proof. intros (Hb & Hu & _). destruct config, q; cbn; congruence. Qed.

Lemma decorate_then p1 t1 c1 p2 t2 c2 cls w :
  Forall installable (config_items (catalog_of p1 c1 w)) →
  Forall installable (config_items (catalog_of p2 c2 w)) →
  ∃ w',
    bind (decorate p1 t1 c1 cls) (decorate p2 t2 c2) w = (w', Ok cls) ∧
    g_binary_magic_config w' = g_binary_magic_config w ∧
    g_unary_magic_config w' = g_unary_magic_config w ∧
    heap w' cls =
      {| cls_name := cls_name (heap w cls);
         cls_dict :=
           bind_entries p2 t2 (cls_name (heap w cls))
             (config_items (catalog_of p2 c2 w))
             (bind_entries p1 t1 (cls_name (heap w cls))
                (config_items (catalog_of p1 c1 w)) (cls_dict (heap w cls))) |} ∧
    ∀ c, c ≠ cls → heap w' c = heap w c.
Proof.
  intros H1 H2.
  destruct (decorate_ok p1 t1 c1 cls w H1) as (w1 & Hrun1 & Hres1).
  pose proof (loop_result_catalog_of _ _ _ _ _ _ p2 c2 Hres1) as Ecat.
  rewrite <-Ecat in H2.
  destruct (decorate_ok p2 t2 c2 cls w1 H2) as (w2 & Hrun2 & Hres2).
  rewrite Ecat in Hres2.
  destruct Hres1 as (Hb1 & Hu1 & Hc1 & Ho1). destruct Hres2 as (Hb2 & Hu2 & Hc2 & Ho2).
  exists w2. rewrite (bind_ok _ _ _ _ _ Hrun1). split; [done|].
  split; [congruence|]. split; [congruence|]. split.
  - rewrite Hc2, Hc1. done.
  - intros c Hne. by rewrite Ho2, Ho1.
Qed.

(** X6.  Two decorations of one class whose catalogs can be installed and
    share no key give the same class in either order; so the binary and
    the unary decorator may be stacked either way. *)
Theorem disjoint_decorations_commute p1 t1 c1 p2 t2 c2 cls w :
  Forall installable (config_items (catalog_of p1 c1 w)) →
  Forall installable (config_items (catalog_of p2 c2 w)) →
  (∀ n, n ∈ (config_items (catalog_of p1 c1 w)).*1 →
        n ∉ (config_items (catalog_of p2 c2 w)).*1) →
  ∃ w12 w21,
    bind (decorate p1 t1 c1 cls) (decorate p2 t2 c2) w = (w12, Ok cls) ∧
    bind (decorate p2 t2 c2 cls) (decorate p1 t1 c1) w = (w21, Ok cls) ∧
    same_world w12 w21.
Proof.
  intros H1 H2 Hdisj.
  destruct (decorate_then p1 t1 c1 p2 t2 c2 cls w H1 H2) as (w12 & R12 & B12 & U12 & C12 & O12).
  destruct (decorate_then p2 t2 c2 p1 t1 c1 cls w H2 H1) as (w21 & R21 & B21 & U21 & C21 & O21).
  exists w12, w21. split; [done|]. split; [done|].
  split; [congruence|]. split; [congruence|].
  intros c. destruct (decide (c = cls)) as [->|Hne].
  - rewrite C12, C21. f_equal. symmetry. by apply bind_entries_commute.
  - by rewrite O12, O21.
Qed.

End Loop.

Section Builtin.

Context {Obj : Type} {NP : Numpy Obj} {TS : TypeSlots}.

(** Membership in a list that is written out. *)
Ltac in_list :=
  repeat first [apply list_elem_of_here | apply list_elem_of_further].

Lemma installable_entries (items : list (string * settings_t Obj)) :
  Forall (λ n, type_slot n = None) items.*1 →
  Forall (λ item, is_Some (item.2 !! "func")) items →
  Forall installable items.
Proof.
  induction items as [|item items IH]; cbn; intros Hs Hf; [done|].
  apply list.Forall_cons in Hs as [Hs1 Hs]. apply list.Forall_cons in Hf as [Hf1 Hf].
  constructor; [done|by apply IH].
Qed.

Lemma dict_func_has_func (f : pyfunc Obj) : is_Some (dict_func f !! "func").
Proof. unfold dict_func. rewrite lookup_singleton_eq. eauto. Qed.

Lemma binary_magic_config_wf : config_wf (binary_magic_config (Obj:=Obj)).
Proof. unfold config_wf. cbn. apply (bool_decide_unpack _). by vm_compute. Qed.

Lemma unary_magic_config_wf : config_wf (unary_magic_config (Obj:=Obj)).
Proof. unfold config_wf. cbn. apply (bool_decide_unpack _). by vm_compute. Qed.

Lemma invoke_dict_func p translate_func config cls (w w' : world Obj) r name f :
  config_wf (catalog_of p config w) →
  decorate p translate_func config cls w = (w', Ok r) →
  (name, dict_func f) ∈ config_items (catalog_of p config w) →
  ∀ args, invoke w' cls name args None None =
    call (new_method p translate_func (cls_name (heap w cls)) name (VFunc f)) args None None.
Proof.
  intros Hwf Hrun Hin args.
  destruct (decorated_attr p _ _ _ _ _ _ _ _ Hwf Hrun Hin) as (func & Hf & Ha).
  unfold dict_func in Hf. rewrite lookup_singleton_eq in Hf. injection Hf as <-.
  by rewrite (invoke_method _ _ _ _ _ _ _ Ha).
Qed.

(** X7.  With the built-in catalogs (no catalog passed) on the module as
    imported, and a host that lets the built-in names be bound, the
    decoration returns; then every direct binary operator returns
    [translate(self, other, f)] for its NumPy function [f], every
    reflected operator returns [translate(self, other, g)] for a [g] that
    computes [f] with the operands swapped, and every unary operator
    returns [translate(self, f)]. *)
Theorem builtin_operators_after_decoration translate_func cls
    (classes : cls_ref → pyclass Obj) :
  (Forall (λ n, type_slot n = None) (config_items (binary_magic_config (Obj:=Obj))).*1 →
   ∃ w', decorate_binary translate_func None cls (module_init classes) = (w', Ok cls) ∧
     Forall (λ op : string * pyfunc Obj,
               ∀ self other,
                 invoke w' cls op.1 [self; other] None None =
                   translate_func [self; other; VFunc op.2])
            (comparison_operators ++ arithmetic_operators ++ bitwise_operators)%list ∧
     Forall (λ op : string * pyfunc Obj,
               ∃ g : pyfunc Obj,
                 (∀ x y, g [x; y] = op.2 [y; x]) ∧
                 ∀ self other,
                   invoke w' cls (reflected_name op.1) [self; other] None None =
                     translate_func [self; other; VFunc g])
            (arithmetic_operators ++ bitwise_operators)%list) ∧
  (Forall (λ n, type_slot n = None) (config_items (unary_magic_config (Obj:=Obj))).*1 →
   ∃ w', decorate_unary translate_func None cls (module_init classes) = (w', Ok cls) ∧
     Forall (λ op : string * pyfunc Obj,
               ∀ self,
                 invoke w' cls op.1 [self] None None = translate_func [self; VFunc op.2])
            unary_operators).
Proof.
  split; intros Hslots.
  - assert (Hall : Forall installable
              (config_items (catalog_of SelfOther None (module_init classes)))).
    { apply installable_entries; [done|]. cbn. repeat constructor; apply dict_func_has_func. }
    destruct (decorate_ok SelfOther translate_func None cls _ Hall) as (w' & Hrun & _).
    exists w'. split; [exact Hrun|].
    pose proof (λ name f, invoke_dict_func SelfOther translate_func None cls
                  (module_init classes) w' cls name f binary_magic_config_wf Hrun) as Hinv.
    split.
    + cbn. repeat (apply List.Forall_cons; [|]); try apply List.Forall_nil;
        cbn; intros self other; (erewrite Hinv; [reflexivity|cbn; in_list]).
    + cbn. repeat (apply List.Forall_cons; [|]); try apply List.Forall_nil; cbn;
        (eexists (lambda_swapped _); split; [intros x y; reflexivity|]);
        intros self other; (erewrite Hinv; [reflexivity|cbn; in_list]).
  - assert (Hall : Forall installable
              (config_items (catalog_of SelfOnly None (module_init classes)))).
    { apply installable_entries; [done|]. cbn. repeat constructor; apply dict_func_has_func. }
    destruct (decorate_ok SelfOnly translate_func None cls _ Hall) as (w' & Hrun & _).
    exists w'. split; [exact Hrun|].
    pose proof (λ name f, invoke_dict_func SelfOnly translate_func None cls
                  (module_init classes) w' cls name f unary_magic_config_wf Hrun) as Hinv.
    cbn. repeat (apply List.Forall_cons; [|]); try apply List.Forall_nil;
      cbn; intros self; (erewrite Hinv; [reflexivity|cbn; in_list]).
Qed.

End Builtin.

(** *** The properties on the concrete scenario *)

Import Scenario.

Lemma add_sub_catalog_wf : config_wf add_sub_catalog.
Proof. apply (bool_decide_unpack _). by vm_compute. Qed.

Lemma add_sub_catalog_installable : Forall installable (config_items add_sub_catalog).
Proof.
  apply installable_entries; cbn; repeat constructor; apply dict_func_has_func.
Qed.

Lemma negate_catalog_installable : Forall installable (config_items negate_catalog).
Proof.
  apply installable_entries; cbn; repeat constructor; apply dict_func_has_func.
Qed.

Lemma installed_method_is_named_after_its_key_witness :
  config_wf add_sub_catalog ∧
  ∃ m, cls_dict (heap (after (decorate_binary translate_pair (Some add_sub_catalog) Wrapped)
                         world_stocked) Wrapped) !! "__sub__" = Some (Method m) ∧
       fn_name m = "__sub__" ∧
       fn_qualname m = "Wrapped.__sub__" ∧
       fn_params m = SelfOther.
Proof.
  split; [exact add_sub_catalog_wf|].
  refine (installed_method_is_named_after_its_key SelfOther translate_pair
            (Some add_sub_catalog) Wrapped world_stocked _ Wrapped "__sub__"
            (dict_func (two_args Z.sub)) add_sub_catalog_wf _ _).
  - reflexivity.
  - cbn. set_solver.
Defined.

Lemma decoration_touches_only_catalog_names_witness :
  heap (after (decorate_binary translate_pair (Some broken_catalog) Wrapped) world_stocked) 1
    = heap world_stocked 1 ∧
  cls_dict (heap (after (decorate_binary translate_pair (Some broken_catalog) Wrapped)
                    world_stocked) Wrapped) !! "unit" = Some (Data 1%Z).
Proof.
  destruct (decoration_touches_only_catalog_names SelfOther translate_pair
              (Some broken_catalog) Wrapped world_stocked) as (Ho & _ & _ & _ & Hd).
  split.
  - apply Ho. discriminate.
  - unfold after. cbn in Hd. rewrite Hd; [reflexivity|].
    apply (bool_decide_unpack _). by vm_compute.
Defined.

Lemma decoration_adds_exactly_the_catalog_names_witness :
  dom (cls_dict (heap (after (decorate_binary translate_pair (Some add_sub_catalog) Wrapped)
                         world_stocked) Wrapped))
    = ({[ "unit" ]} ∪ {[ "__add__"; "__sub__" ]} : gset string).
Proof.
  assert (Hrun : decorate SelfOther translate_pair (Some add_sub_catalog) Wrapped
                   world_stocked
                 = (after (decorate_binary translate_pair (Some add_sub_catalog) Wrapped)
                      world_stocked, Ok Wrapped)) by reflexivity.
  rewrite (decoration_adds_exactly_the_catalog_names SelfOther translate_pair
             (Some add_sub_catalog) Wrapped world_stocked _ Wrapped Hrun).
  cbn. rewrite dom_singleton_L. set_solver.
Defined.

Lemma modifier_returns_iff_all_installable_witness :
  Forall installable (config_items add_sub_catalog) ∧
  (∃ w', wrapper_binary translate_pair add_sub_catalog Wrapped world0 = (w', Ok Wrapped)) ∧
  ¬ Forall installable (config_items broken_catalog).
Proof.
  split; [exact add_sub_catalog_installable|]. split.
  - exact (proj1 (proj1 (modifier_returns_iff_all_installable SelfOther translate_pair
                           add_sub_catalog Wrapped world0)) add_sub_catalog_installable).
  - intros Hall.
    destruct (proj1 (proj1 (modifier_returns_iff_all_installable SelfOther translate_pair
                              broken_catalog Wrapped world0)) Hall) as (w' & Hrun).
    discriminate Hrun.
Defined.

Lemma refused_name_raises_after_earlier_entries_witness :
  Forall installable [("__add__", dict_func (two_args Z.add))] ∧
  is_Some (dict_func (two_args Z.sub) !! "func") ∧
  type_slot "__name__" = Some (TypeError "can only assign a value of the slot's type") ∧
  ∃ w', wrapper_binary translate_pair (catalog [("__add__", dict_func (two_args Z.add))])
          Wrapped world0 = (w', Ok Wrapped) ∧
        wrapper_binary translate_pair slot_catalog Wrapped world0
          = (w', Raise (TypeError "can only assign a value of the slot's type")).
Proof.
  assert (Hpre : Forall installable [("__add__", dict_func (two_args Z.add))])
    by (apply installable_entries; cbn; repeat constructor; apply dict_func_has_func).
  split; [exact Hpre|]. split; [apply dict_func_has_func|]. split; [reflexivity|].
  exact (refused_name_raises_after_earlier_entries SelfOther translate_pair
           (catalog [("__add__", dict_func (two_args Z.add))]) slot_catalog Wrapped
           [("__add__", dict_func (two_args Z.add))] "__name__" _ [] _ world0
           eq_refl eq_refl Hpre (dict_func_has_func _) eq_refl).
Defined.

Lemma disjoint_decorations_commute_witness :
  ∃ w12 w21,
    bind (decorate_binary translate_pair (Some add_sub_catalog) Wrapped)
         (decorate_unary translate_one (Some negate_catalog)) world0 = (w12, Ok Wrapped) ∧
    bind (decorate_unary translate_one (Some negate_catalog) Wrapped)
         (decorate_binary translate_pair (Some add_sub_catalog)) world0 = (w21, Ok Wrapped) ∧
    same_world w12 w21.
Proof.
  refine (disjoint_decorations_commute SelfOther translate_pair (Some add_sub_catalog)
            SelfOnly translate_one (Some negate_catalog) Wrapped world0
            add_sub_catalog_installable negate_catalog_installable _).
  cbn. intros n Hn. apply (bool_decide_unpack _).
  repeat (apply elem_of_cons in Hn as [->|Hn]; [by vm_compute|]).
  by apply elem_of_nil in Hn.
Defined.

Lemma builtin_operators_after_decoration_witness :
  ∃ w', decorate_binary translate_pair None Wrapped (module_init fresh_classes)
          = (w', Ok Wrapped) ∧
        invoke w' Wrapped "__mul__" [VObj 6%Z; VObj 7%Z] None None
          = translate_pair [VObj 6%Z; VObj 7%Z; VFunc np_multiply].
Proof.
  destruct (proj1 (builtin_operators_after_decoration translate_pair Wrapped fresh_classes))
    as (w' & Hrun & Hdirect & _).
  { cbn. repeat constructor. }
  exists w'. split; [exact Hrun|].
  rewrite list.Forall_forall in Hdirect.
  apply (Hdirect ("__mul__", np_multiply)). by apply list_elem_of_lookup_2 with 8.
Defined.

End MagicMore.

(** ** Further properties of the image helpers *)

Module ImageMore.

Import Image.

Local Open Scope nat_scope.

(** Assigning a block whose rows and columns are those of the selected
    region and whose depth is that of the target or one. *)
Lemma setitem_cells c r0 r1 c0 c1 src H W D sd :
  shape c = (H, W, D) →
  shape src = (r1 - r0, c1 - c0, sd) →
  r0 ≤ r1 ≤ H →
  c0 ≤ c1 ≤ W →
  sd = D ∨ sd = 1 →
  ∃ c', setitem c r0 r1 c0 c1 src = Ok c' ∧
        shape c' = shape c ∧
        dtype_of c' = dtype_of c ∧
        ∀ i j k,
          item c' i j k =
            if bool_decide (r0 ≤ i < r1 ∧ c0 ≤ j < c1)
            then cast (dtype_of c)
                   (item src (i - r0) (j - c0) (if bool_decide (sd = 1) then 0 else k))
            else item c i j k.
Proof.
  intros Hc Hs Hr Hcol Hd. unfold setitem. rewrite Hc, Hs.
  rewrite !Nat.min_l by lia. rewrite !ImageProofs.broadcastable_same. cbn.
  assert (broadcastable sd D = true) as ->.
  { unfold broadcastable. destruct Hd as [->| ->].
    - by rewrite bool_decide_eq_true_2.
    - rewrite (bool_decide_eq_true_2 (1 = 1)) by done. by rewrite orb_true_r. }
  eexists. split; [reflexivity|]. cbn. do 2 (split; [done|]).
  intros i j k.
  destruct (bool_decide (r0 ≤ i < r1)) eqn:Ei;
    destruct (bool_decide (c0 ≤ j < c1)) eqn:Ej; cbn.
  - apply bool_decide_eq_true_1 in Ei, Ej.
    rewrite bool_decide_eq_true_2 by done.
    by rewrite !ImageProofs.src_index_lt by lia.
  - apply bool_decide_eq_false_1 in Ej. rewrite bool_decide_eq_false_2; [done|tauto].
  - apply bool_decide_eq_false_1 in Ei. rewrite bool_decide_eq_false_2; [done|tauto].
  - apply bool_decide_eq_false_1 in Ei. rewrite bool_decide_eq_false_2; [done|tauto].
Qed.

Lemma setitem_depth_mismatch c r0 r1 c0 c1 src H W D sh sw sd :
  shape c = (H, W, D) →
  shape src = (sh, sw, sd) →
  sd ≠ D → sd ≠ 1 →
  setitem c r0 r1 c0 c1 src = Raise (ValueError "could not broadcast input array").
Proof.
  intros Hc Hs H1 H2. unfold setitem. rewrite Hc, Hs.
  assert (broadcastable sd D = false) as ->.
  { unfold broadcastable. by rewrite !bool_decide_eq_false_2. }
  by rewrite !andb_false_r.
Qed.

(** Every cell of the horizontal stack, for a second image whose depth is
    that of the first or one. *)
Lemma hstack_cells a b h1 w1 d h2 w2 d2 :
  shape a = (h1, w1, d) →
  shape b = (h2, w2, d2) →
  d2 = d ∨ d2 = 1 →
  ∃ c, hstack_image_arrays a b = Ok c ∧
       shape c = (h1 `max` h2, w1 + w2, d) ∧
       dtype_of c = uint8 ∧
       ∀ i j k,
         item c i j k =
           if bool_decide (i < h2 ∧ w1 ≤ j < w1 + w2)
           then (item b i (j - w1)%nat (if bool_decide (d2 = 1%nat) then 0%nat else k) `mod` 256)%Z
           else if bool_decide (i < h1 ∧ j < w1)
           then (item a i j (if bool_decide (d = 1%nat) then 0%nat else k) `mod` 256)%Z
           else 255%Z.
Proof.
  intros Ha Hb Hd. unfold hstack_image_arrays. rewrite Ha, Hb.
  set (c0 := np_full (h1 `max` h2, w1 + w2, d) 255 uint8).
  destruct (setitem_cells c0 0 h1 0 w1 a (h1 `max` h2) (w1 + w2) d d)
    as (c1 & E1 & S1 & T1 & I1);
    [done|by rewrite Ha, !Nat.sub_0_r|lia|lia|by left|].
  destruct (setitem_cells c1 0 h2 w1 (w1 + w2) b (h1 `max` h2) (w1 + w2) d d2)
    as (c2 & E2 & S2 & T2 & I2);
    [by rewrite S1|rewrite Hb; f_equal; f_equal; lia|lia|lia|done|].
  exists c2. rewrite E1. cbn. rewrite E2. cbn.
  split; [done|]. split; [by rewrite S2, S1|]. split; [by rewrite T2, T1|].
  intros i j k. rewrite I2, I1, T1. cbn. rewrite !Nat.sub_0_r.
  repeat case_bool_decide; try done; lia.
Qed.

(** Every cell of the vertical stack. *)
Lemma vstack_cells a b h1 w1 d h2 w2 d2 :
  shape a = (h1, w1, d) →
  shape b = (h2, w2, d2) →
  d2 = d ∨ d2 = 1 →
  ∃ c, vstack_image_arrays a b = Ok c ∧
       shape c = (h1 + h2, w1 `max` w2, d) ∧
       dtype_of c = uint8 ∧
       ∀ i j k,
         item c i j k =
           if bool_decide (h1 ≤ i < h1 + h2 ∧ j < w2)
           then (item b (i - h1)%nat j (if bool_decide (d2 = 1%nat) then 0%nat else k) `mod` 256)%Z
           else if bool_decide (i < h1 ∧ j < w1)
           then (item a i j (if bool_decide (d = 1%nat) then 0%nat else k) `mod` 256)%Z
           else 255%Z.
Proof.
  intros Ha Hb Hd. unfold vstack_image_arrays. rewrite Ha, Hb.
  set (c0 := np_full (h1 + h2, w1 `max` w2, d) 255 uint8).
  destruct (setitem_cells c0 0 h1 0 w1 a (h1 + h2) (w1 `max` w2) d d)
    as (c1 & E1 & S1 & T1 & I1);
    [done|by rewrite Ha, !Nat.sub_0_r|lia|lia|by left|].
  destruct (setitem_cells c1 h1 (h1 + h2) 0 w2 b (h1 + h2) (w1 `max` w2) d d2)
    as (c2 & E2 & S2 & T2 & I2);
    [by rewrite S1|rewrite Hb; f_equal; f_equal; lia|lia|lia|done|].
  exists c2. rewrite E1. cbn. rewrite E2. cbn.
  split; [done|]. split; [by rewrite S2, S1|]. split; [by rewrite T2, T1|].
  intros i j k. rewrite I2, I1, T1. cbn. rewrite !Nat.sub_0_r.
  repeat case_bool_decide; try done; lia.
Qed.

Lemma hstack_mismatch a b h1 w1 d h2 w2 d2 :
  shape a = (h1, w1, d) →
  shape b = (h2, w2, d2) →
  d2 ≠ d → d2 ≠ 1 →
  hstack_image_arrays a b = Raise (ValueError "could not broadcast input array").
Proof.
  intros Ha Hb H1 H2. unfold hstack_image_arrays. rewrite Ha, Hb.
  set (c0 := np_full (h1 `max` h2, w1 + w2, d) 255 uint8).
  destruct (setitem_cells c0 0 h1 0 w1 a (h1 `max` h2) (w1 + w2) d d)
    as (c1 & E1 & S1 & _);
    [done|by rewrite Ha, !Nat.sub_0_r|lia|lia|by left|].
  rewrite E1. cbn.
  by rewrite (setitem_depth_mismatch c1 _ _ _ _ b (h1 `max` h2) (w1 + w2) d h2 w2 d2)
    by (done || by rewrite S1).
Qed.

Lemma vstack_mismatch a b h1 w1 d h2 w2 d2 :
  shape a = (h1, w1, d) →
  shape b = (h2, w2, d2) →
  d2 ≠ d → d2 ≠ 1 →
  vstack_image_arrays a b = Raise (ValueError "could not broadcast input array").
Proof.
  intros Ha Hb H1 H2. unfold vstack_image_arrays. rewrite Ha, Hb.
  set (c0 := np_full (h1 + h2, w1 `max` w2, d) 255 uint8).
  destruct (setitem_cells c0 0 h1 0 w1 a (h1 + h2) (w1 `max` w2) d d)
    as (c1 & E1 & S1 & _);
    [done|by rewrite Ha, !Nat.sub_0_r|lia|lia|by left|].
  rewrite E1. cbn.
  by rewrite (setitem_depth_mismatch c1 _ _ _ _ b (h1 + h2) (w1 `max` w2) d h2 w2 d2)
    by (done || by rewrite S1).
Qed.

Lemma depth_cases (d d2 : nat) : (d2 = d ∨ d2 = 1) ∨ (d2 ≠ d ∧ d2 ≠ 1).
Proof. destruct (decide (d2 = d)), (decide (d2 = 1)); tauto. Qed.

Lemma mod_256_range z : (0 ≤ z `mod` 256 ≤ 255)%Z.
Proof. pose proof (Z.mod_pos_bound z 256). lia. Qed.

(** X8.  Whatever the element types and values of the two images, a
    stack that is returned has element type unsigned 8-bit and every cell
    in 0..255. *)
Theorem stacked_image_is_8_bit a b c :
  hstack_image_arrays a b = Ok c ∨ vstack_image_arrays a b = Ok c →
  dtype_of c = uint8 ∧ ∀ i j k, (0 ≤ item c i j k ≤ 255)%Z.
Proof.
  destruct (shape a) as [[h1 w1] d] eqn:Ha. destruct (shape b) as [[h2 w2] d2] eqn:Hb.
  destruct (depth_cases d d2) as [Hd|[Hd1 Hd2]].
  - destruct (hstack_cells a b h1 w1 d h2 w2 d2 Ha Hb Hd) as (ch & Eh & _ & Th & Ih).
    destruct (vstack_cells a b h1 w1 d h2 w2 d2 Ha Hb Hd) as (cv & Ev & _ & Tv & Iv).
    intros [E|E].
    + rewrite Eh in E. injection E as <-. split; [done|]. intros i j k. rewrite Ih.
      repeat case_bool_decide; try apply mod_256_range; lia.
    + rewrite Ev in E. injection E as <-. split; [done|]. intros i j k. rewrite Iv.
      repeat case_bool_decide; try apply mod_256_range; lia.
  - rewrite (hstack_mismatch a b _ _ _ _ _ _ Ha Hb Hd1 Hd2).
    rewrite (vstack_mismatch a b _ _ _ _ _ _ Ha Hb Hd1 Hd2).
    by intros [?|?].
Qed.

(** X9.  Stacking raises exactly when the depth of the second image is
    neither the depth of the first nor one; heights and widths never make
    it raise. *)
Theorem stacking_raises_iff_depths_differ a b :
  (raises (hstack_image_arrays a b) ↔
   (shape b).2 ≠ (shape a).2 ∧ (shape b).2 ≠ 1) ∧
  (raises (vstack_image_arrays a b) ↔
   (shape b).2 ≠ (shape a).2 ∧ (shape b).2 ≠ 1).
Proof.
  destruct (shape a) as [[h1 w1] d] eqn:Ha. destruct (shape b) as [[h2 w2] d2] eqn:Hb.
  cbn. destruct (depth_cases d d2) as [Hd|[Hd1 Hd2]].
  - destruct (hstack_cells a b h1 w1 d h2 w2 d2 Ha Hb Hd) as (ch & -> & _).
    destruct (vstack_cells a b h1 w1 d h2 w2 d2 Ha Hb Hd) as (cv & -> & _).
    split; (split; [by intros [e He]|intros [H1 H2]; destruct Hd; done]).
  - rewrite (hstack_mismatch a b _ _ _ _ _ _ Ha Hb Hd1 Hd2).
    rewrite (vstack_mismatch a b _ _ _ _ _ _ Ha Hb Hd1 Hd2).
    split; (split; [done|intros _; by eexists]).
Qed.

(** X10.  A second image with a single channel is repeated over all the
    channels of the result: in its block every channel holds the one
    channel of the image, converted to unsigned 8-bit. *)
Theorem single_channel_is_repeated a b h1 w1 d h2 w2 :
  shape a = (h1, w1, d) →
  shape b = (h2, w2, 1) →
  (∃ c, hstack_image_arrays a b = Ok c ∧
        shape c = (h1 `max` h2, w1 + w2, d) ∧
        ∀ i j k, i < h2 → j < w2 →
          item c i (w1 + j) k = (item b i j 0 `mod` 256)%Z) ∧
  (∃ c, vstack_image_arrays a b = Ok c ∧
        shape c = (h1 + h2, w1 `max` w2, d) ∧
        ∀ i j k, i < h2 → j < w2 →
          item c (h1 + i) j k = (item b i j 0 `mod` 256)%Z).
Proof.
  intros Ha Hb. split.
  - destruct (hstack_cells a b h1 w1 d h2 w2 1 Ha Hb) as (c & E & S & _ & I); [by right|].
    exists c. split; [done|]. split; [done|]. intros i j k Hi Hj. rewrite I.
    rewrite bool_decide_eq_true_2 by lia. cbn. do 2 f_equal. lia.
  - destruct (vstack_cells a b h1 w1 d h2 w2 1 Ha Hb) as (c & E & S & _ & I); [by right|].
    exists c. split; [done|]. split; [done|]. intros i j k Hi Hj. rewrite I.
    rewrite bool_decide_eq_true_2 by lia. cbn. do 2 f_equal. lia.
Qed.

Lemma swapaxes_shape a h w d : shape a = (h, w, d) → shape (swapaxes a) = (w, h, d).
Proof. intros Ha. unfold swapaxes. by rewrite Ha. Qed.

Lemma swapaxes_item a i j k : item (swapaxes a) i j k = item a j i k.
Proof. unfold swapaxes. by destruct (shape a) as [[h w] d]. Qed.

(** X11.  Stacking vertically is stacking horizontally with rows and
    columns exchanged: [vstack_image_arrays a b] and
    [hstack_image_arrays] of the two images with their first two axes
    swapped both raise, or both return, and then the one result is the
    other with its first two axes swapped. *)
Theorem vstack_is_hstack_of_swapped_axes a b :
  match vstack_image_arrays a b, hstack_image_arrays (swapaxes a) (swapaxes b) with
  | Ok c, Ok c' =>
      shape c = shape (swapaxes c') ∧ dtype_of c = dtype_of c' ∧
      ∀ i j k, item c i j k = item c' j i k
  | Raise e, Raise e' => e = e'
  | _, _ => False
  end.
Proof.
  destruct (shape a) as [[h1 w1] d] eqn:Ha. destruct (shape b) as [[h2 w2] d2] eqn:Hb.
  pose proof (swapaxes_shape a _ _ _ Ha) as Ha'.
  pose proof (swapaxes_shape b _ _ _ Hb) as Hb'.
  destruct (depth_cases d d2) as [Hd|[Hd1 Hd2]].
  - destruct (vstack_cells a b h1 w1 d h2 w2 d2 Ha Hb Hd) as (c & -> & S & T & I).
    destruct (hstack_cells _ _ w1 h1 d w2 h2 d2 Ha' Hb' Hd) as (c' & -> & S' & T' & I').
    split; [|split].
    + rewrite (swapaxes_shape c' _ _ _ S'). by rewrite S.
    + by rewrite T, T'.
    + intros i j k. rewrite I, I', !swapaxes_item.
      repeat case_bool_decide; try done; lia.
  - rewrite (vstack_mismatch a b _ _ _ _ _ _ Ha Hb Hd1 Hd2).
    by rewrite (hstack_mismatch _ _ _ _ _ _ _ _ Ha' Hb' Hd1 Hd2).
Qed.

Lemma mod_256_twice z : ((z `mod` 256) `mod` 256 = z `mod` 256)%Z.
Proof. by rewrite Z.mod_mod. Qed.

(** X12.  Stacking three images of one depth gives the same image whether
    the first two or the last two are stacked first, horizontally and
    vertically: the same shape and the same cells. *)
Theorem stacking_is_associative a b c h1 w1 h2 w2 h3 w3 d :
  shape a = (h1, w1, d) →
  shape b = (h2, w2, d) →
  shape c = (h3, w3, d) →
  (∃ l r,
     and_then (hstack_image_arrays a b) (λ ab, hstack_image_arrays ab c) = Ok l ∧
     and_then (hstack_image_arrays b c) (λ bc, hstack_image_arrays a bc) = Ok r ∧
     shape l = shape r ∧
     ∀ i j k, item l i j k = item r i j k) ∧
  (∃ l r,
     and_then (vstack_image_arrays a b) (λ ab, vstack_image_arrays ab c) = Ok l ∧
     and_then (vstack_image_arrays b c) (λ bc, vstack_image_arrays a bc) = Ok r ∧
     shape l = shape r ∧
     ∀ i j k, item l i j k = item r i j k).
Proof.
  intros Ha Hb Hc. split.
  - destruct (hstack_cells a b _ _ _ _ _ _ Ha Hb (or_introl eq_refl))
      as (ab & Eab & Sab & _ & Iab).
    destruct (hstack_cells ab c _ _ _ _ _ _ Sab Hc (or_introl eq_refl))
      as (l & El & Sl & _ & Il).
    destruct (hstack_cells b c _ _ _ _ _ _ Hb Hc (or_introl eq_refl))
      as (bc & Ebc & Sbc & _ & Ibc).
    destruct (hstack_cells a bc _ _ _ _ _ _ Ha Sbc (or_introl eq_refl))
      as (r & Er & Sr & _ & Ir).
    exists l, r. unfold and_then. rewrite Eab, Ebc. cbn.
    split; [done|]. split; [done|]. split.
    + rewrite Sl, Sr. f_equal. f_equal; lia.
    + intros i j k. rewrite Il, Ir, Iab, Ibc.
      repeat case_bool_decide; rewrite ?mod_256_twice; try done; try lia;
        do 2 f_equal; lia.
  - destruct (vstack_cells a b _ _ _ _ _ _ Ha Hb (or_introl eq_refl))
      as (ab & Eab & Sab & _ & Iab).
    destruct (vstack_cells ab c _ _ _ _ _ _ Sab Hc (or_introl eq_refl))
      as (l & El & Sl & _ & Il).
    destruct (vstack_cells b c _ _ _ _ _ _ Hb Hc (or_introl eq_refl))
      as (bc & Ebc & Sbc & _ & Ibc).
    destruct (vstack_cells a bc _ _ _ _ _ _ Ha Sbc (or_introl eq_refl))
      as (r & Er & Sr & _ & Ir).
    exists l, r. unfold and_then. rewrite Eab, Ebc. cbn.
    split; [done|]. split; [done|]. split.
    + rewrite Sl, Sr. f_equal. f_equal; lia.
    + intros i j k. rewrite Il, Ir, Iab, Ibc.
      repeat case_bool_decide; rewrite ?mod_256_twice; try done; try lia;
        do 2 f_equal; lia.
Qed.

Lemma stacked_image_is_8_bit_witness :
  ∃ c, hstack_image_arrays grey_square pixel16 = Ok c ∧
       dtype_of c = uint8 ∧ ∀ i j k, (0 ≤ item c i j k ≤ 255)%Z.
Proof.
  eexists. split; [reflexivity|].
  apply (stacked_image_is_8_bit grey_square pixel16). by left.
Defined.

Lemma stacking_raises_iff_depths_differ_witness :
  raises (hstack_image_arrays rgb_pixel rgba_pixel) ∧
  ¬ raises (vstack_image_arrays rgb_pixel grey_pixel).
Proof.
  split.
  - apply (proj1 (stacking_raises_iff_depths_differ rgb_pixel rgba_pixel)). by cbn.
  - intros Hr.
    apply (proj2 (stacking_raises_iff_depths_differ rgb_pixel grey_pixel)) in Hr.
    cbn in Hr. by destruct Hr.
Defined.

Lemma single_channel_is_repeated_witness :
  ∃ c, hstack_image_arrays rgb_pixel grey_pixel = Ok c ∧
       shape c = (1, 2, 3) ∧
       ∀ i j k, i < 1 → j < 1 → item c i (1 + j) k = 99%Z.
Proof.
  exact (proj1 (single_channel_is_repeated rgb_pixel grey_pixel 1 1 3 1 1 eq_refl eq_refl)).
Defined.

(** A three-channel pixel beside a grey pixel: the grey value fills the
    three channels. *)
Example rgb_beside_grey :
  ∃ c, hstack_image_arrays rgb_pixel grey_pixel = Ok c ∧
       [item c 0 0 0; item c 0 0 1; item c 0 0 2] = [0; 10; 20]%Z ∧
       [item c 0 1 0; item c 0 1 1; item c 0 1 2] = [99; 99; 99]%Z.
Proof. eexists. repeat split; reflexivity. Qed.

Lemma stacking_is_associative_witness :
  ∃ l r,
    and_then (hstack_image_arrays grey_square pixel16)
      (λ ab, hstack_image_arrays ab pixel8) = Ok l ∧
    and_then (hstack_image_arrays pixel16 pixel8)
      (λ bc, hstack_image_arrays grey_square bc) = Ok r ∧
    shape l = shape r ∧
    ∀ i j k, item l i j k = item r i j k.
Proof.
  exact (proj1 (stacking_is_associative grey_square pixel16 pixel8 2 2 1 1 1 1 1
                  eq_refl eq_refl eq_refl)).
Defined.

End ImageMore.

(** ** Properties of [save_animation] *)

Module AnimationProofs.

Import Animation.

Local Open Scope nat_scope.

(** The starts of the windows: the multiples of the step that leave room
    for a window and one more element. *)
Lemma py_range_starts (n d s : nat) :
  1 ≤ s →
  py_range (Z.of_nat n - Z.of_nat d) (Z.of_nat s) =
    Ok ((λ k, Z.of_nat (k * s)) <$> seq 0 (frame_count n d s)).
Proof.
  intros Hs. unfold py_range, frame_count.
  rewrite bool_decide_eq_false_2 by lia.
  rewrite (bool_decide_eq_true_2 (0 < Z.of_nat s)%Z) by lia.
  f_equal. destruct (decide (n ≤ d)) as [Hnd|Hnd].
  - rewrite (bool_decide_eq_true_2 (n ≤ d)) by done.
    by rewrite bool_decide_eq_false_2 by lia.
  - rewrite (bool_decide_eq_false_2 (n ≤ d)) by done.
    rewrite bool_decide_eq_true_2 by lia.
    replace (Z.of_nat n - Z.of_nat d - 1)%Z with (Z.of_nat (n - d - 1)) by lia.
    rewrite <-(Nat2Z.inj_div (n - d - 1) s).
    replace (Z.of_nat ((n - d - 1) `div` s) + 1)%Z
      with (Z.of_nat ((n - d - 1) `div` s + 1)) by lia.
    unfold seqZ. rewrite Nat2Z.id, <-list_fmap_compose.
    apply list_fmap_ext. intros _ k _. cbn. lia.
Qed.

Lemma frame_count_bound (n d s k : nat) :
  1 ≤ s → k < frame_count n d s → k * s + d < n.
Proof.
  unfold frame_count. intros Hs Hk. case_bool_decide as Hnd; [lia|].
  assert (k ≤ (n - d - 1) `div` s) as Hle by lia.
  pose proof (Nat.div_mod_eq (n - d - 1) s) as Hdm. nia.
Qed.

Section Loop.

Context {Elt PFig Img Arr : Type} {H : Host Elt PFig Img Arr}.

Implicit Types (index window : list Elt) (s : io Arr).
Implicit Types (plot_func : list Elt → exc (figure PFig Img Arr)).

Lemma py_getitem_ok index (z : Z) :
  (- Z.of_nat (length index) ≤ z < Z.of_nat (length index))%Z →
  ∃ x, py_getitem index z = Ok x.
Proof.
  intros Hz. unfold py_getitem.
  destruct (decide (z < 0)%Z) as [Hneg|Hneg].
  - rewrite (bool_decide_eq_true_2 (z < 0)%Z) by done.
    rewrite bool_decide_eq_true_2 by lia.
    destruct (lookup_lt_is_Some_2 index (Z.to_nat (z + Z.of_nat (length index))))
      as [x ->]; [lia|]. by exists x.
  - rewrite (bool_decide_eq_false_2 (z < 0)%Z) by done.
    rewrite bool_decide_eq_true_2 by lia.
    destruct (lookup_lt_is_Some_2 index (Z.to_nat z)) as [x ->]; [lia|]. by exists x.
Qed.

Lemma py_slice_window index (i d : nat) :
  i + d ≤ length index →
  py_slice index (Z.of_nat i) (Z.of_nat i + Z.of_nat d) = take d (drop i index).
Proof.
  intros Hle. unfold py_slice.
  rewrite !bool_decide_eq_false_2 by lia. rewrite !Z.min_l by lia.
  f_equal; [lia|]. f_equal. lia.
Qed.

(** One iteration on a window that lies before the last element. *)
Lemma plot_frame_window index plot_func (i d : nat) s :
  i + d < length index →
  ∃ desc,
    plot_frame index plot_func (Z.of_nat d) (Z.of_nat i) s =
      match render plot_func (take d (drop i index)) with
      | Ok a => (append_data a (set_description desc s), Ok tt)
      | Raise e => (set_description desc s, Raise e)
      end.
Proof.
  intros Hlt. unfold plot_frame, render.
  destruct (py_getitem_ok index (Z.of_nat i)) as [x ->]; [lia|].
  destruct (py_getitem_ok index (Z.of_nat i + Z.of_nat d - 1)) as [y ->]; [lia|].
  exists (str x ++ " - " ++ str y)%string.
  rewrite py_slice_window by lia.
  destruct (plot_func _) as [fig|e]; [|done]. by destruct (to_frame fig).
Qed.

(** The loop over starts whose windows can all be rendered appends their
    frames in order. *)
Lemma for_each_windows index plot_func (d : nat) (starts : list nat) s :
  Forall (λ i, i + d < length index) starts →
  Forall (λ i, ∃ a, render plot_func (take d (drop i index)) = Ok a) starts →
  ∃ s' new,
    for_each (Z.of_nat <$> starts) (plot_frame index plot_func (Z.of_nat d)) s
      = (s', Ok tt) ∧
    frames s' = (frames s ++ new)%list ∧
    Forall2 (λ i a, render plot_func (take d (drop i index)) = Ok a) starts new ∧
    same_handles s s'.
Proof.
  intros Hb Hr. revert s.
  induction starts as [|i starts IH]; intros s.
  - exists s, []. cbn. rewrite app_nil_r. by repeat split.
  - apply list.Forall_cons in Hb as [Hi Hb]. apply list.Forall_cons in Hr as [[a Ha] Hr].
    destruct (plot_frame_window index plot_func i d s Hi) as [desc Hstep].
    rewrite Ha in Hstep.
    destruct (IH Hb Hr (append_data a (set_description desc s)))
      as (s' & new & Hrun & Hf & Hall & Hh).
    exists s', (a :: new). cbn. rewrite Hstep. split; [done|].
    split; [|split].
    + rewrite Hf. cbn. by rewrite <-app_assoc.
    + by constructor.
    + exact Hh.
Qed.


Lemma for_each_ext (l : list Z) (body1 body2 : Z → io Arr → io Arr * exc unit) s :
  (∀ i s, i ∈ l → body1 i s = body2 i s) →
  for_each l body1 s = for_each l body2 s.
Proof.
  revert s. induction l as [|i l IH]; intros s Hext; cbn; [done|].
  rewrite (Hext i s) by set_solver.
  destruct (body2 i s) as [s' [[]|e]]; [|done]. apply IH. intros. apply Hext. set_solver.
Qed.

Lemma py_range_elem (stop step : Z) r i :
  (1 ≤ step)%Z → py_range stop step = Ok r → i ∈ r → (0 ≤ i < stop)%Z.
Proof.
  intros Hs. unfold py_range. rewrite bool_decide_eq_false_2 by lia.
  rewrite (bool_decide_eq_true_2 (0 < step)%Z) by lia.
  intros [= <-] Hin. apply list_elem_of_fmap in Hin as (k & -> & Hk).
  apply elem_of_seqZ in Hk. case_bool_decide as Hstop; [|lia].
  assert (k ≤ (stop - 1) `div` step)%Z as Hle by lia.
  pose proof (Z.mul_div_le (stop - 1) step). nia.
Qed.

(** An iteration whose window lies before the last element does not look
    at the last element. *)
Lemma plot_frame_last index x y plot_func (delta i : Z) s :
  (1 ≤ delta)%Z → (0 ≤ i)%Z → (i + delta ≤ Z.of_nat (length index))%Z →
  plot_frame (index ++ [x]) plot_func delta i s =
  plot_frame (index ++ [y]) plot_func delta i s.
Proof.
  intros Hd Hi Hle.
  assert (Hget : ∀ z, (0 ≤ z < Z.of_nat (length index))%Z →
            py_getitem (index ++ [x]) z = py_getitem (index ++ [y]) z).
  { intros z Hz. unfold py_getitem. rewrite !length_app. cbn.
    rewrite !(bool_decide_eq_false_2 (z < 0)%Z) by lia.
    by rewrite !lookup_app_l by lia. }
  assert (Hslice : py_slice (index ++ [x]) i (i + delta)
                   = py_slice (index ++ [y]) i (i + delta)).
  { unfold py_slice. rewrite !length_app. cbn.
    rewrite !bool_decide_eq_false_2 by lia. rewrite !Z.min_l by lia.
    rewrite !drop_app_le by lia. rewrite !take_app_le; [done|..];
      rewrite length_drop; lia. }
  unfold plot_frame. rewrite (Hget i), (Hget (i + delta - 1)%Z), Hslice by lia. done.
Qed.

(** X13.  When [plotly] can be imported, the step is at least one and
    every window can be rendered, the call returns with the writer and the
    progress bar closed, and the frames it wrote are, in order, those of
    the windows of [delta] elements (half the length of the index when no
    delta is passed) that start at positions 0, step, 2 step, ... and end
    before the last element of the index: when [n] is the length of the
    index there are none of them if [n <= delta], and else
    [(n - delta - 1) // step + 1]. *)
Theorem animation_frames_are_the_windows fname index plot_func delta (d s : nat) fps :
  plotly_available = true →
  1 ≤ s →
  delta_of index delta = Z.of_nat d →
  Forall (λ window, ∃ a, render plot_func window = Ok a) (windows index d s) →
  ∃ out,
    save_animation fname index plot_func delta (Z.of_nat s) fps = (out, Ok tt) ∧
    Forall2 (λ window a, render plot_func window = Ok a) (windows index d s) (frames out) ∧
    length (frames out) = frame_count (length index) d s ∧
    writer_opened out = Some (fname, fps) ∧
    writer_closed out = true ∧
    pbar_closed out = true.
Proof.
  intros Hp Hs Hd Hr. unfold save_animation. rewrite Hp. cbn.
  fold (delta_of index delta). rewrite Hd, (py_range_starts _ _ _ Hs).
  unfold windows in *.
  rewrite (list_fmap_compose (λ k, k * s) (λ i, take d (drop i index))) in Hr |- *.
  rewrite (list_fmap_compose (λ k, k * s) Z.of_nat).
  set (starts := (λ k, k * s) <$> seq 0 (frame_count (length index) d s)) in *.
  assert (Hb : Forall (λ i, i + d < length index) starts).
  { apply list.Forall_forall. intros i Hin. apply list_elem_of_fmap in Hin as (k & -> & Hk).
    apply elem_of_seq in Hk. apply frame_count_bound; [done|lia]. }
  rewrite list.Forall_fmap in Hr.
  destruct (for_each_windows index plot_func d starts
              (get_pbar (get_writer fname fps nothing)) Hb Hr)
    as (s' & new & Hrun & Hf & Hall & Ho & Hc & _).
  rewrite Hrun. eexists. split; [reflexivity|]. cbn in *. rewrite Hf. cbn.
  split; [by apply Forall2_fmap_l|].
  split; [|done].
  rewrite <-(Forall2_length Hall). unfold starts.
  by rewrite length_fmap, length_seq.
Qed.


(** X15.  With a step of at least one and a delta of at least one (or no
    delta and an index of at least two elements), the last element of the
    index is never used: the call does the same, whatever that element
    is. *)
Theorem animation_ignores_last_element fname index x y plot_func delta step fps :
  (1 ≤ step)%Z →
  (1 ≤ delta_of (index ++ [x]) delta)%Z →
  save_animation fname (index ++ [x]) plot_func delta step fps =
  save_animation fname (index ++ [y]) plot_func delta step fps.
Proof.
  intros Hs Hd. unfold save_animation. destruct plotly_available; cbn; [|done].
  fold (delta_of (index ++ [x]) delta) (delta_of (index ++ [y]) delta).
  assert (delta_of (index ++ [y]) delta = delta_of (index ++ [x]) delta) as ->.
  { destruct delta; [done|]. cbn. by rewrite !length_app. }
  rewrite !length_app. cbn [length].
  destruct (py_range _ step) as [r|e] eqn:Hr; [|done].
  rewrite (for_each_ext r _ (plot_frame (index ++ [y]) plot_func
                               (delta_of (index ++ [x]) delta))); [done|].
  intros i s Hin. pose proof (py_range_elem _ _ _ _ Hs Hr Hin).
  apply plot_frame_last; lia.
Qed.


End Loop.

(** *** The properties on the concrete run *)

(** Five days, windows of two (half of five), step one: three frames, and
    Friday is in none of them. *)
Example five_days_frames :
  save_animation "week.gif" five_days show_window None 1 3 =
    ({| writer_opened := Some ("week.gif", 3%Z);
        frames := [["mon"; "tue"]; ["tue"; "wed"]; ["wed"; "thu"]];
        writer_closed := true; pbar_created := true;
        description := Some "wed - thu"; pbar_closed := true |}, Ok tt).
Proof. reflexivity. Qed.

Lemma five_days_renderable :
  Forall (λ window, ∃ a, render show_window window = Ok a) (windows five_days 2 1).
Proof. repeat (constructor; [by eexists|]). constructor. Qed.

Lemma animation_frames_are_the_windows_witness :
  ∃ out,
    save_animation "week.gif" five_days show_window None (Z.of_nat 1) 3 = (out, Ok tt) ∧
    Forall2 (λ window a, render show_window window = Ok a)
      (windows five_days 2 1) (frames out) ∧
    length (frames out) = frame_count (length five_days) 2 1 ∧
    writer_opened out = Some ("week.gif", 3%Z) ∧
    writer_closed out = true ∧
    pbar_closed out = true.
Proof.
  exact (animation_frames_are_the_windows "week.gif" five_days show_window None 2 1 3
           eq_refl (le_n 1) eq_refl five_days_renderable).
Defined.


Lemma animation_ignores_last_element_witness :
  save_animation "week.gif" (["mon"; "tue"; "wed"; "thu"] ++ ["fri"]) show_window
    (Some 2%Z) 1 3 =
  save_animation "week.gif" (["mon"; "tue"; "wed"; "thu"] ++ ["sat"]) show_window
    (Some 2%Z) 1 3.
Proof.
  apply animation_ignores_last_element; cbn; lia.
Defined.


End AnimationProofs.
